(** * kmapper.cover: the cubical cover of a lens space

    A shallow embedding of [src/kmapper/cover.py] (class [Cover]) and
    the properties its specification states about it.

    Modelling decisions, all local to this file:

    - The code is embedded twice.  In the first embedding NumPy [float64]
      values are exact rationals ([Q]): rounding, overflow, signed zeros and
      NaN are not represented, and the only non-finite value the code tests
      for, the marker [np.float("inf")] inside [limits], is a constructor of
      its own ([inf]).  It carries the properties of the control flow: what
      is returned, raised, warned about and written to the object.  The
      second embedding (module [B64]) computes on binary64 numbers and
      carries the properties that depend on the values of the bin bounds.
    - A 2-D array is its column count and the list of its rows; a 1-D array
      is a list.  Elementwise operations follow NumPy's broadcasting rule for
      1-D operands: equal lengths, or one operand of length one, and a
      [ValueError] otherwise.
    - A [Cover] object is a record that is threaded through the methods;
      every method returns the object as it is left behind, the warnings it
      emitted and either its value or the exception it raised. *)

From Stdlib Require Import List ZArith QArith Qminmax Lqa Lia Bool Sorted.
From Stdlib Require Floats.
Import ListNotations.

Local Open Scope Q_scope.

(** ** Exceptions, warnings, results *)

Inductive exn : Type :=
| ValueError_zero_size
    (* zero-size array to reduction operation minimum/maximum *)
| ValueError_broadcast (a b : nat)
    (* operands could not be broadcast together with shapes (a,) (b,) *)
| AssertionError_dims (specified needed : nat)
    (* the message of the assertion on len(self.n_cubes) *)
| IndexError
| AttributeError.

Inductive result (A : Type) : Type :=
| Ok (a : A)
| Raise (e : exn).

Arguments Ok {A} a.
Arguments Raise {A} e.

Definition bind {A B : Type} (r : result A) (k : A -> result B) : result B :=
  match r with
  | Ok a => k a
  | Raise e => Raise e
  end.

Notation "x <- r ;; k" := (bind r (fun x => k))
  (at level 61, r at next level, right associativity).

Inductive warning : Type :=
| DeprecationWarning
| LimitsWarning (actual_minima input_minima actual_maxima input_maxima : list Q).

(** ** Arrays *)

Record ndarray : Type := mk_ndarray {
  ncols : nat;
  rows : list (list Q)
}.

Definition well_shaped (data : ndarray) : Prop :=
  Forall (fun r => length r = ncols data) (rows data).

Fixpoint map2 {A B C : Type} (f : A -> B -> C) (xs : list A) (ys : list B)
  : list C :=
  match xs, ys with
  | x :: xs', y :: ys' => f x y :: map2 f xs' ys'
  | _, _ => []
  end.

Definition broadcastable (a b : nat) : bool :=
  Nat.eqb a b || Nat.eqb a 1 || Nat.eqb b 1.

(** The value of a broadcast binary operation on two 1-D operands. *)
Definition bc {A B C : Type} (f : A -> B -> C) (xs : list A) (ys : list B)
  : list C :=
  if Nat.eqb (length xs) (length ys) then map2 f xs ys
  else match xs, ys with
       | [x], _ => map (f x) ys
       | _, [y] => map (fun x => f x y) xs
       | _, _ => []
       end.

Definition broadcast {A B C : Type} (f : A -> B -> C)
  (xs : list A) (ys : list B) : result (list C) :=
  if broadcastable (length xs) (length ys) then Ok (bc f xs ys)
  else Raise (ValueError_broadcast (length xs) (length ys)).

(** [target[:, j] = source] for a target with [n] rows: the source is
    broadcast to the target's shape, never the other way round. *)
Definition assign_column (n : nat) (source : list Q) : result (list Q) :=
  if Nat.eqb (length source) n then Ok source
  else match source with
       | [x] => Ok (repeat x n)
       | _ => Raise (ValueError_broadcast n (length source))
       end.

(** [np.min(a, axis=0)] and [np.max(a, axis=0)] of a 2-D array. *)
Definition np_min (a : list (list Q)) : result (list Q) :=
  match a with
  | [] => Raise ValueError_zero_size
  | r :: rs => Ok (fold_left (map2 Qmin) rs r)
  end.

Definition np_max (a : list (list Q)) : result (list Q) :=
  match a with
  | [] => Raise ValueError_zero_size
  | r :: rs => Ok (fold_left (map2 Qmax) rs r)
  end.

(** [np.clip(a, a_min=lo, a_max=hi)] is [minimum(maximum(a, lo), hi)]. *)
Definition clip1 (a lo hi : Q) : Q := Qmin (Qmax a lo) hi.

Definition np_clip (a lo hi : list Q) : result (list Q) :=
  m <- broadcast Qmax a lo ;;
  broadcast Qmin m hi.

(** [range(n)] and [itertools.product]. *)
Definition range (n : Z) : list Z := map Z.of_nat (seq 0 (Z.to_nat n)).

Fixpoint product {A : Type} (pools : list (list A)) : list (list A) :=
  match pools with
  | [] => [[]]
  | pool :: rest =>
      flat_map (fun x => map (cons x) (product rest)) pool
  end.

(** ** The Cover object *)

(** [n_cubes] is an [int] or a [list] of them. *)
Inductive cubes_arg : Type :=
| PyInt (n : Z)
| PyList (l : list Z).

(** An entry of [limits]: a number, or [np.float("inf")]. *)
Inductive limit : Type :=
| inf
| fin (q : Q).

(** The attributes written by [define_bins] (lines 141-158).  They are
    assigned in one straight line of code that cannot raise, so an object
    has all of them or none. *)
Record Geometry : Type := mk_Geometry {
  base_dist : list Q;
  overlap_dist : list Q;
  chunk_dist : list Q;
  d : list Q;
  end_ : list Q;
  di : list nat;
  nr_dimensions : nat
}.

Record Cover : Type := mk_Cover {
  n_cubes : cubes_arg;
  perc_overlap : Q;
  limits : option (list (limit * limit));
  geometry : option Geometry
}.

(** Python truthiness of the two legacy arguments. *)
Definition truthy_cubes (c : cubes_arg) : bool :=
  match c with
  | PyInt n => negb (Z.eqb n 0)
  | PyList l => negb (Nat.eqb (length l) 0)
  end.

Definition truthy_float (q : Q) : bool := negb (Qeq_bool q 0).

Definition default_n_cubes : cubes_arg := PyInt 10.
Definition default_perc_overlap : Q := 2 # 10.

(** [Cover.__init__].  [limits] is taken as the [(n_dim, 2)] array the two
    assertions of lines 87-92 let through. *)
Definition __init__
  (n_cubes_arg : cubes_arg) (perc_overlap_arg : Q)
  (limits_arg : option (list (limit * limit)))
  (nr_cubes : option cubes_arg) (overlap_perc : option Q)
  : Cover * list warning :=
  let n :=
    match nr_cubes with
    | Some v => if truthy_cubes v then v else n_cubes_arg
    | None => n_cubes_arg
    end in
  let p :=
    match overlap_perc with
    | Some v => if truthy_float v then v else perc_overlap_arg
    | None => perc_overlap_arg
    end in
  let ws :=
    match overlap_perc, nr_cubes with
    | None, None => []
    | _, _ => [DeprecationWarning]
    end in
  (mk_Cover n p limits_arg None, ws).

(** *** define_bins *)

Definition is_inf (l : limit) : bool :=
  match l with inf => true | fin _ => false end.

(** [self.limits[self.limits == inf] = 0], entry by entry. *)
Definition zero_inf (l : limit) : limit :=
  match l with inf => fin 0 | fin q => fin q end.

Definition limit_value (l : limit) : Q :=
  match l with inf => 0 | fin q => q end.

(** One entry of [bounds_arr = self.limits + limits_array]: [self.limits]
    after line 118 plus [limits_array] after line 117. *)
Definition bounds_entry (l : limit) (extremum : Q) : Q :=
  limit_value (zero_inf l) + (if is_inf l then extremum else 0).

Definition all (bs : list bool) : bool := forallb (fun b => b) bs.

(** Lines 112-138: the bounds, [self.limits] as it is left behind, and the
    warnings. *)
Definition resolve_bounds
  (lims : option (list (limit * limit))) (indexless_data : list (list Q))
  : result (list Q * list Q * option (list (limit * limit)) * list warning) :=
  match lims with
  | Some l =>
      mins <- np_min indexless_data ;;
      col0 <- assign_column (length l) mins ;;
      maxs <- np_max indexless_data ;;
      col1 <- assign_column (length l) maxs ;;
      let lower := map2 bounds_entry (map fst l) col0 in
      let upper := map2 bounds_entry (map snd l) col1 in
      let l' := map (fun lu => (zero_inf (fst lu), zero_inf (snd lu))) l in
      ge <- broadcast (fun m b => Qle_bool b m) mins lower ;;
      le <- broadcast Qle_bool maxs upper ;;
      let ws :=
        if negb (all ge || all le)
        then [LimitsWarning mins lower maxs upper]
        else [] in
      Ok (lower, upper, Some l', ws)
  | None =>
      mins <- np_min indexless_data ;;
      maxs <- np_max indexless_data ;;
      Ok (mins, maxs, None, [])
  end.

(** [x / self.n_cubes] of line 141.  A zero entry makes NumPy produce a
    non-finite quotient (with a RuntimeWarning, not an exception); [Q] has
    no such value, and nothing below relies on the quotient in that case. *)
Definition divide (x : list Q) (n : cubes_arg) : result (list Q) :=
  match n with
  | PyInt n => Ok (map (fun v => v / inject_Z n) x)
  | PyList l => broadcast Qdiv x (map inject_Z l)
  end.

(** Lines 160-168: the per-dimension cube counts. *)
Definition cubes (n : cubes_arg) (nr : nat) : result (list Z) :=
  match n with
  | PyInt n => Ok (repeat n nr)
  | PyList l =>
      if Nat.eqb (length l) nr then Ok l
      else Raise (AssertionError_dims (length l) nr)
  end.

Definition define_bins (self : Cover) (data : ndarray)
  : Cover * list warning * result (list (list Z)) :=
  let indexless_data := map (@tl Q) (rows data) in
  match resolve_bounds (limits self) indexless_data with
  | Raise e => (self, [], Raise e)
  | Ok (lower, upper, limits', ws) =>
      let self1 :=
        mk_Cover (n_cubes self) (perc_overlap self) limits' (geometry self) in
      match divide (bc Qminus upper lower) (n_cubes self) with
      | Raise e => (self1, ws, Raise e)
      | Ok base =>
          let overlap := map (Qmult (perc_overlap self)) base in
          let chunk := bc Qplus base (map (fun o => o * 2) overlap) in
          let dims := seq 1 (ncols data - 1) in
          let g :=
            mk_Geometry base overlap chunk lower upper dims (length dims) in
          let self2 :=
            mk_Cover (n_cubes self) (perc_overlap self) limits' (Some g) in
          match cubes (n_cubes self) (nr_dimensions g) with
          | Raise e => (self2, ws, Raise e)
          | Ok cs => (self2, ws, Ok (product (map range cs)))
          end
      end
  end.

(** *** find_entries *)

(** [data[:, self.di]].  [self.di] is [np.array(range(1, data.shape[1]))]:
    an integer array, except that the array of an empty range has NumPy's
    default dtype [float64], which is refused as an index. *)
Definition take_columns (data : ndarray) (idx : list nat)
  : result (list (list Q)) :=
  match idx with
  | [] => Raise IndexError
  | _ :: _ =>
      if forallb (fun i => Nat.ltb i (ncols data)) idx
      then Ok (map (fun r => map (fun i => nth i r 0) idx) (rows data))
      else Raise IndexError
  end.

(** A comparison of a 2-D array with [k] columns against a 1-D array. *)
Definition broadcast_rows {C : Type} (f : Q -> Q -> C)
  (k : nat) (x : list (list Q)) (v : list Q) : result (list (list C)) :=
  if broadcastable k (length v) then Ok (map (fun r => bc f r v) x)
  else Raise (ValueError_broadcast k (length v)).

(** [data[mask]] for a boolean mask over the rows. *)
Definition select_rows (rs : list (list Q)) (mask : list bool)
  : list (list Q) :=
  map fst (filter snd (combine rs mask)).

Definition find_entries (self : Cover) (data : ndarray) (cube : list Z)
  : result ndarray :=
  match geometry self with
  | None => Raise AttributeError
  | Some g =>
      let base := base_dist g in
      let overlap := overlap_dist g in
      let chunk := chunk_dist g in
      scaled <- broadcast Qmult (map inject_Z cube) base ;;
      shifted <- broadcast Qplus (d g) scaled ;;
      lower_bound_unclipped <- broadcast Qminus shifted overlap ;;
      upper_bound_unclipped <- broadcast Qplus lower_bound_unclipped chunk ;;
      lower_bound <- np_clip lower_bound_unclipped (d g) (end_ g) ;;
      upper_bound <- np_clip upper_bound_unclipped (d g) (end_ g) ;;
      x <- take_columns data (di g) ;;
      ge <- broadcast_rows (fun v lo => Qle_bool lo v)
              (length (di g)) x lower_bound ;;
      le <- broadcast_rows Qle_bool (length (di g)) x upper_bound ;;
      let entries := map2 (bc andb) ge le in
      (* np.invert(np.any(entries == False, axis=1)) *)
      let mask := map all entries in
      Ok (mk_ndarray (ncols data) (select_rows (rows data) mask))
  end.

(** ** The same code in binary64

    The definitions above compute with exact rationals.  The module below
    is the same code, statement by statement, on IEEE 754 binary64 numbers
    (the kernel's primitive floats): every operation rounds as the
    processor does, a zero count gives an infinite or undefined width, the
    marker of [limits] is the float [infinity], and a comparison with NaN is
    false.  Exceptions, broadcasting, [cubes], [range] and [product] are
    those of the definitions above. *)

Module B64.
Import PrimFloat.
Local Open Scope float_scope.

Record ndarray : Type := mk_ndarray {
  ncols : nat;
  rows : list (list float)
}.

Definition well_shaped (data : ndarray) : Prop :=
  Forall (fun r => length r = ncols data) (rows data).

(** [np.minimum] and [np.maximum]: NaN propagates. *)
Definition minimum (a b : float) : float :=
  if (a <=? b) || is_nan a then a else b.

Definition maximum (a b : float) : float :=
  if (b <=? a) || is_nan a then a else b.

Definition np_min (a : list (list float)) : result (list float) :=
  match a with
  | [] => Raise ValueError_zero_size
  | r :: rs => Ok (fold_left (map2 minimum) rs r)
  end.

Definition np_max (a : list (list float)) : result (list float) :=
  match a with
  | [] => Raise ValueError_zero_size
  | r :: rs => Ok (fold_left (map2 maximum) rs r)
  end.

Definition clip1 (a lo hi : float) : float := minimum (maximum a lo) hi.

Definition np_clip (a lo hi : list float) : result (list float) :=
  m <- broadcast maximum a lo ;;
  broadcast minimum m hi.

(** The conversion of a Python [int] (an [int64] entry) to [float64]. *)
Definition of_int (z : Z) : float :=
  match z with
  | Z0 => zero
  | Zpos _ => of_uint63 (Uint63.of_Z z)
  | Zneg p => - of_uint63 (Uint63.of_Z (Zpos p))
  end.

Definition assign_column (n : nat) (source : list float)
  : result (list float) :=
  if Nat.eqb (length source) n then Ok source
  else match source with
       | [x] => Ok (repeat x n)
       | _ => Raise (ValueError_broadcast n (length source))
       end.

Record Geometry : Type := mk_Geometry {
  base_dist : list float;
  overlap_dist : list float;
  chunk_dist : list float;
  d : list float;
  end_ : list float;
  di : list nat;
  nr_dimensions : nat
}.

(** The object as [__init__] leaves it is [mk_Cover n p limits None]. *)
Record Cover : Type := mk_Cover {
  n_cubes : cubes_arg;
  perc_overlap : float;
  limits : option (list (float * float));
  geometry : option Geometry
}.

Inductive warning : Type :=
| LimitsWarning
    (actual_minima input_minima actual_maxima input_maxima : list float).

(** [x == np.float("inf")]. *)
Definition is_inf (x : float) : bool := x =? infinity.

(** [self.limits[self.limits == inf] = 0], entry by entry. *)
Definition zero_inf (x : float) : float := if is_inf x then zero else x.

(** One entry of [bounds_arr = self.limits + limits_array]. *)
Definition bounds_entry (l extremum : float) : float :=
  zero_inf l + (if is_inf l then extremum else zero).

Definition resolve_bounds
  (lims : option (list (float * float))) (indexless_data : list (list float))
  : result (list float * list float * option (list (float * float))
            * list warning) :=
  match lims with
  | Some l =>
      mins <- np_min indexless_data ;;
      col0 <- assign_column (length l) mins ;;
      maxs <- np_max indexless_data ;;
      col1 <- assign_column (length l) maxs ;;
      let lower := map2 bounds_entry (map fst l) col0 in
      let upper := map2 bounds_entry (map snd l) col1 in
      let l' := map (fun lu => (zero_inf (fst lu), zero_inf (snd lu))) l in
      ge <- broadcast (fun m b => b <=? m) mins lower ;;
      le <- broadcast leb maxs upper ;;
      let ws :=
        if negb (all ge || all le)
        then [LimitsWarning mins lower maxs upper]
        else [] in
      Ok (lower, upper, Some l', ws)
  | None =>
      mins <- np_min indexless_data ;;
      maxs <- np_max indexless_data ;;
      Ok (mins, maxs, None, [])
  end.

(** [x / self.n_cubes] of line 141. *)
Definition divide (x : list float) (n : cubes_arg) : result (list float) :=
  match n with
  | PyInt n => Ok (map (fun v => v / of_int n) x)
  | PyList l => broadcast div x (map of_int l)
  end.

Definition define_bins (self : Cover) (data : ndarray)
  : Cover * list warning * result (list (list Z)) :=
  let indexless_data := map (@tl float) (rows data) in
  match resolve_bounds (limits self) indexless_data with
  | Raise e => (self, [], Raise e)
  | Ok (lower, upper, limits', ws) =>
      let self1 :=
        mk_Cover (n_cubes self) (perc_overlap self) limits' (geometry self) in
      match divide (bc sub upper lower) (n_cubes self) with
      | Raise e => (self1, ws, Raise e)
      | Ok base =>
          let overlap := map (mul (perc_overlap self)) base in
          let chunk := bc add base (map (fun o => o * 2) overlap) in
          let dims := seq 1 (ncols data - 1) in
          let g :=
            mk_Geometry base overlap chunk lower upper dims (length dims) in
          let self2 :=
            mk_Cover (n_cubes self) (perc_overlap self) limits' (Some g) in
          match cubes (n_cubes self) (nr_dimensions g) with
          | Raise e => (self2, ws, Raise e)
          | Ok cs => (self2, ws, Ok (product (map range cs)))
          end
      end
  end.

Definition take_columns (data : ndarray) (idx : list nat)
  : result (list (list float)) :=
  match idx with
  | [] => Raise IndexError
  | _ :: _ =>
      if forallb (fun i => Nat.ltb i (ncols data)) idx
      then Ok (map (fun r => map (fun i => nth i r zero) idx) (rows data))
      else Raise IndexError
  end.

Definition broadcast_rows {C : Type} (f : float -> float -> C)
  (k : nat) (x : list (list float)) (v : list float)
  : result (list (list C)) :=
  if broadcastable k (length v) then Ok (map (fun r => bc f r v) x)
  else Raise (ValueError_broadcast k (length v)).

Definition select_rows (rs : list (list float)) (mask : list bool)
  : list (list float) :=
  map fst (filter snd (combine rs mask)).

Definition find_entries (self : Cover) (data : ndarray) (cube : list Z)
  : result ndarray :=
  match geometry self with
  | None => Raise AttributeError
  | Some g =>
      let base := base_dist g in
      let overlap := overlap_dist g in
      let chunk := chunk_dist g in
      scaled <- broadcast mul (map of_int cube) base ;;
      shifted <- broadcast add (d g) scaled ;;
      lower_bound_unclipped <- broadcast sub shifted overlap ;;
      upper_bound_unclipped <- broadcast add lower_bound_unclipped chunk ;;
      lower_bound <- np_clip lower_bound_unclipped (d g) (end_ g) ;;
      upper_bound <- np_clip upper_bound_unclipped (d g) (end_ g) ;;
      x <- take_columns data (di g) ;;
      ge <- broadcast_rows (fun v lo => lo <=? v)
              (length (di g)) x lower_bound ;;
      le <- broadcast_rows leb (length (di g)) x upper_bound ;;
      let entries := map2 (bc andb) ge le in
      let mask := map all entries in
      Ok (mk_ndarray (ncols data) (select_rows (rows data) mask))
  end.

(** *** Vocabulary of the binary64 statements *)

(** The geometry attributes a call of [define_bins] leaves on the object. *)
Definition stored (self : Cover) (data : ndarray) : option Geometry :=
  geometry (fst (fst (define_bins self data))).

Definition lens (r : list float) (j : nat) : float := nth (S j) r zero.

(** The bounds of the bin of index [i] on dimension [j], with the code's
    operations in the code's order (lines 194-198). *)
Definition unclipped_lower_at (g : Geometry) (j : nat) (i : Z) : float :=
  nth j (d g) zero + of_int i * nth j (base_dist g) zero
  - nth j (overlap_dist g) zero.

Definition lower_at (g : Geometry) (j : nat) (i : Z) : float :=
  clip1 (unclipped_lower_at g j i) (nth j (d g) zero) (nth j (end_ g) zero).

Definition upper_at (g : Geometry) (j : nat) (i : Z) : float :=
  clip1 (unclipped_lower_at g j i + nth j (chunk_dist g) zero)
    (nth j (d g) zero) (nth j (end_ g) zero).

Definition in_bin (g : Geometry) (cube : list Z) (r : list float) : bool :=
  forallb
    (fun j => (lower_at g j (nth j cube 0%Z) <=? lens r j)
              && (lens r j <=? upper_at g j (nth j cube 0%Z)))
    (seq 0 (nr_dimensions g)).

Record shaped (g : Geometry) (k : nat) : Prop := mk_shaped {
  shaped_base : length (base_dist g) = k;
  shaped_overlap : length (overlap_dist g) = k;
  shaped_chunk : length (chunk_dist g) = k;
  shaped_d : length (d g) = k;
  shaped_end : length (end_ g) = k;
  shaped_di : di g = seq 1 k;
  shaped_nr : nr_dimensions g = k
}.

Definition limits_match (self : Cover) (data : ndarray) : Prop :=
  match limits self with
  | None => True
  | Some l => length l = (ncols data - 1)%nat
  end.

Definition cubes_match (self : Cover) (data : ndarray) : Prop :=
  match n_cubes self with
  | PyInt _ => True
  | PyList l => length l = (ncols data - 1)%nat
  end.

(** On dimension [j] with [n] cubes, the bins as computed chain from the
    stored lower bound to the stored upper bound without a gap: the first
    one starts at or below [self.d], each one starts at or below the end of
    the one before it, and the last one ends at or above [self.end]. *)
Definition chained_at (g : Geometry) (j : nat) (n : Z) : bool :=
  Z.leb 1 n
  && (lower_at g j 0 <=? nth j (d g) zero)
  && forallb (fun i => lower_at g j (i + 1) <=? upper_at g j i)
       (range (n - 1))
  && (nth j (end_ g) zero <=? upper_at g j (n - 1)).

Definition chained (g : Geometry) (cs : list Z) : bool :=
  forallb (fun j => chained_at g j (nth j cs 0%Z))
    (seq 0 (nr_dimensions g)).

(** On every dimension the bin of [cube] under [g2] encloses its bin under
    [g1], as computed. *)
Definition nested (g1 g2 : Geometry) (cube : list Z) : bool :=
  forallb
    (fun j => (lower_at g2 j (nth j cube 0%Z) <=? lower_at g1 j (nth j cube 0%Z))
              && (upper_at g1 j (nth j cube 0%Z) <=? upper_at g2 j (nth j cube 0%Z)))
    (seq 0 (nr_dimensions g1)).

(** On every dimension the bin of [cube] reaches both stored bounds. *)
Definition reaches (g : Geometry) (cube : list Z) : bool :=
  forallb
    (fun j => (lower_at g j (nth j cube 0%Z) <=? nth j (d g) zero)
              && (nth j (end_ g) zero <=? upper_at g j (nth j cube 0%Z)))
    (seq 0 (nr_dimensions g)).

(** The stored bounds enclose every lens coordinate of the table. *)
Definition encloses (g : Geometry) (data : ndarray) : bool :=
  forallb
    (fun r => forallb
                (fun j => (nth j (d g) zero <=? lens r j)
                          && (lens r j <=? nth j (end_ g) zero))
                (seq 0 (nr_dimensions g)))
    (rows data).

(** Value equality of two rows, and the rows two results share. *)
Fixpoint row_eqb (r s : list float) : bool :=
  match r, s with
  | [], [] => true
  | x :: r', y :: s' => (x =? y) && row_eqb r' s'
  | _, _ => false
  end.

Definition common (out out' : list (list float)) : list (list float) :=
  filter (fun r => existsb (row_eqb r) out') out.

(** *** Inputs of the binary64 examples *)

Definition table3 : ndarray :=
  mk_ndarray 3 [[0; 0; 0]; [1; 1; 2]; [2; 4; 4]].

Definition cover (n : Z) (p : float) : Cover :=
  mk_Cover (PyInt n) p None None.

Definition cover_limits (n : Z) (p : float) (l : list (float * float))
  : Cover :=
  mk_Cover (PyInt n) p (Some l) None.

Definition run_define_bins (self : Cover) (data : ndarray) : Cover :=
  fst (fst (define_bins self data)).

(** The geometry of [cover n p] on [table3]. *)
Definition geometry3 (n : Z) (p : float) : Geometry :=
  match stored (cover n p) table3 with
  | Some g => g
  | None => mk_Geometry [] [] [] [] [] [] 0
  end.

(** Lens values 0 and 1. *)
Definition table_0_1 : ndarray := mk_ndarray 2 [[0; 0]; [1; 1]].

(** Lens values 0.2 and 0.9, as binary64 reads them. *)
Definition table_02_09 : ndarray :=
  mk_ndarray 2 [[0; 0x1.999999999999ap-3]; [1; 0x1.ccccccccccccdp-1]].

(** Lens values 0, 1, 2, 3, 4. *)
Definition table_0_to_4 : ndarray :=
  mk_ndarray 2 [[0; 0]; [1; 1]; [2; 2]; [3; 3]; [4; 4]].

(** Lens values 0, 2, 4. *)
Definition table_0_2_4 : ndarray := mk_ndarray 2 [[0; 0]; [1; 2]; [2; 4]].

(** Row identifiers only, no lens column. *)
Definition table_ids : ndarray := mk_ndarray 1 [[0]; [1]].

(** The results of [find_entries] for every coordinate [define_bins]
    returns, in the order of the coordinates. *)
Definition all_bins (self : Cover) (data : ndarray)
  : list (result (list (list float))) :=
  match define_bins self data with
  | (self', _, Ok coords) =>
      map (fun cube =>
             match find_entries self' data cube with
             | Ok out => Ok (rows out)
             | Raise e => Raise e
             end) coords
  | (_, _, Raise e) => [Raise e]
  end.

End B64.

(** ** Vocabulary of the statements *)

(** Section 4.3 of the specification, dimension by dimension: the unclipped
    interval of a coordinate, and its clipping to the covered range. *)
Definition unclipped_lower (g : Geometry) (cube : list Z) (j : nat) : Q :=
  nth j (d g) 0 + inject_Z (nth j cube 0%Z) * nth j (base_dist g) 0
  - nth j (overlap_dist g) 0.

Definition unclipped_upper (g : Geometry) (cube : list Z) (j : nat) : Q :=
  unclipped_lower g cube j + nth j (chunk_dist g) 0.

Definition clipped_lower (g : Geometry) (cube : list Z) (j : nat) : Q :=
  clip1 (unclipped_lower g cube j) (nth j (d g) 0) (nth j (end_ g) 0).

Definition clipped_upper (g : Geometry) (cube : list Z) (j : nat) : Q :=
  clip1 (unclipped_upper g cube j) (nth j (d g) 0) (nth j (end_ g) 0).

(** The lens coordinate of a row on dimension [j]: column [j + 1]. *)
Definition lens (r : list Q) (j : nat) : Q := nth (S j) r 0.

Definition in_bin (g : Geometry) (cube : list Z) (r : list Q) : bool :=
  forallb
    (fun j => Qle_bool (clipped_lower g cube j) (lens r j)
              && Qle_bool (lens r j) (clipped_upper g cube j))
    (seq 0 (nr_dimensions g)).

(** A geometry all of whose per-dimension arrays have [k] entries. *)
Record shaped (g : Geometry) (k : nat) : Prop := mk_shaped {
  shaped_base : length (base_dist g) = k;
  shaped_overlap : length (overlap_dist g) = k;
  shaped_chunk : length (chunk_dist g) = k;
  shaped_d : length (d g) = k;
  shaped_end : length (end_ g) = k;
  shaped_di : di g = seq 1 k;
  shaped_nr : nr_dimensions g = k
}.

(** The geometry of lines 141-158, from the bounds and the base widths. *)
Definition geometry_of (p : Q) (lower upper base : list Q) (k : nat)
  : Geometry :=
  mk_Geometry base (map (Qmult p) base)
    (bc Qplus base (map (fun o => o * 2) (map (Qmult p) base)))
    lower upper (seq 1 k) k.

(** [limits], when given, has one pair per lens dimension of the table. *)
Definition limits_match (self : Cover) (data : ndarray) : Prop :=
  match limits self with
  | None => True
  | Some l => length l = (ncols data - 1)%nat
  end.

(** Lexicographic order on coordinates, first dimension most significant:
    a list is sorted for it when its first entry varies slowest. *)
Inductive lex_lt : list Z -> list Z -> Prop :=
| lex_first (x y : Z) (xs ys : list Z) :
    (x < y)%Z -> lex_lt (x :: xs) (y :: ys)
| lex_next (x : Z) (xs ys : list Z) :
    lex_lt xs ys -> lex_lt (x :: xs) (x :: ys).

(** The entry of [n_cubes] for each of [k] dimensions. *)
Definition cubes_of (n : cubes_arg) (k : nat) : list Z :=
  match n with
  | PyInt n => repeat n k
  | PyList l => l
  end.

(** A list [n_cubes] has one entry per lens dimension of the table. *)
Definition cubes_match (self : Cover) (data : ndarray) : Prop :=
  match n_cubes self with
  | PyInt _ => True
  | PyList l => length l = (ncols data - 1)%nat
  end.

(** The widths computed by lines 141-147 for bounds [lower], [upper] and
    per-dimension counts [cs]. *)
Definition widths (upper lower : list Q) (cs : list Z) : list Q :=
  map2 Qdiv (bc Qminus upper lower) (map inject_Z cs).

(** The geometry on dimension [j], in terms of the bounds and the count. *)
Record at_dimension (g : Geometry) (p : Q) (lower upper : list Q)
  (cs : list Z) (j : nat) : Prop := mk_at_dimension {
  dim_d : nth j (d g) 0 = nth j lower 0;
  dim_end : nth j (end_ g) 0 = nth j upper 0;
  dim_base : nth j (base_dist g) 0
             = (nth j upper 0 - nth j lower 0) / inject_Z (nth j cs 0%Z);
  dim_overlap : nth j (overlap_dist g) 0 = p * nth j (base_dist g) 0;
  dim_chunk : nth j (chunk_dist g) 0
              = nth j (base_dist g) 0 + p * nth j (base_dist g) 0 * 2
}.

(** Value equality of two rows. *)
Fixpoint row_eqb (r s : list Q) : bool :=
  match r, s with
  | [], [] => true
  | x :: r', y :: s' => Qeq_bool x y && row_eqb r' s'
  | _, _ => false
  end.

(** The rows of one result that also occur in another. *)
Definition common (out out' : list (list Q)) : list (list Q) :=
  filter (fun r => existsb (row_eqb r) out') out.

(** The resolved bounds enclose every lens coordinate of the table. *)
Definition bounds_enclose (lims : option (list (limit * limit)))
  (data : ndarray) : bool :=
  match resolve_bounds lims (map (@tl Q) (rows data)) with
  | Ok (lower, upper, _, _) =>
      forallb (fun r => all (map2 Qle_bool lower (tl r))
                        && all (map2 Qle_bool (tl r) upper))
              (rows data)
  | Raise _ => false
  end.

(** No entry of [limits] is the unbounded marker. *)
Definition no_inf (lims : option (list (limit * limit))) : Prop :=
  match lims with
  | None => True
  | Some l => Forall (fun lu => is_inf (fst lu) = false
                                /\ is_inf (snd lu) = false) l
  end.

(** An order-preserving selection of the entries of a list. *)
Inductive sublist {A : Type} : list A -> list A -> Prop :=
| sublist_nil : sublist [] []
| sublist_skip (x : A) (l1 l2 : list A) :
    sublist l1 l2 -> sublist l1 (x :: l2)
| sublist_keep (x : A) (l1 l2 : list A) :
    sublist l1 l2 -> sublist (x :: l1) (x :: l2).

(** [m] is the least (the greatest) lens coordinate of the table on
    dimension [j]. *)
Definition column_min (data : ndarray) (j : nat) (m : Q) : Prop :=
  (forall r, In r (rows data) -> m <= lens r j) /\
  (exists r, In r (rows data) /\ lens r j == m).

Definition column_max (data : ndarray) (j : nat) (m : Q) : Prop :=
  (forall r, In r (rows data) -> lens r j <= m) /\
  (exists r, In r (rows data) /\ lens r j == m).

(** The bound that [limits] asks for on one side of one dimension. *)
Definition resolved_lower (data : ndarray) (j : nat) (l : limit) (b : Q)
  : Prop :=
  match l with
  | fin q => b == q
  | inf => column_min data j b
  end.

Definition resolved_upper (data : ndarray) (j : nat) (l : limit) (b : Q)
  : Prop :=
  match l with
  | fin q => b == q
  | inf => column_max data j b
  end.

(** ** Inputs of the examples *)

(** Three rows, a row identifier and two lens coordinates. *)
Definition table3 : ndarray :=
  mk_ndarray 3 [[0; 0; 0]; [1; 1; 2]; [2; 4; 4]].

Definition cover_2_half : Cover :=
  fst (__init__ (PyInt 2) (1 # 2) None None None).

Definition run_define_bins (self : Cover) (data : ndarray) : Cover :=
  fst (fst (define_bins self data)).

Definition cover_list_2_3 : Cover :=
  fst (__init__ (PyList [2; 3]%Z) (1 # 2) None None None).

Definition cover_2_quarter : Cover :=
  fst (__init__ (PyInt 2) (1 # 4) None None None).

Definition cover_1 (lims : option (list (limit * limit))) : Cover :=
  fst (__init__ (PyInt 1) default_perc_overlap lims None None).

Definition table_0_2_4 : ndarray :=
  mk_ndarray 2 [[0; 0]; [1; 2]; [2; 4]].

Definition table_1_3 : ndarray := mk_ndarray 2 [[0; 1]; [1; 3]].

Definition cover_unbounded : Cover :=
  fst (__init__ (PyInt 1) (1 # 2) (Some [(inf, inf)]) None None).

Definition cover_limits (lims : list (limit * limit)) : Cover :=
  fst (__init__ default_n_cubes default_perc_overlap (Some lims) None None).

Definition table_0_1 : ndarray := mk_ndarray 2 [[0; 0]; [1; 1]].

Definition cover_list (l : list Z) : Cover :=
  fst (__init__ (PyList l) default_perc_overlap None None None).

Definition empty_table : ndarray := mk_ndarray 3 [].

Definition cover_limits_2 (lims : list (limit * limit)) : Cover :=
  fst (__init__ (PyInt 2) (1 # 2) (Some lims) None None).

(** Two lens columns and a further column that no geometry of two
    dimensions reads. *)
Definition table3_wide : ndarray :=
  mk_ndarray 4 [[0; 0; 0; 7]; [1; 1; 2; 8]; [2; 4; 4; 9]].

Definition table3_other : ndarray := mk_ndarray 3 [[5; 1; 1]; [6; 2; 9]].

(** Limits that fix the lower side of the first dimension and the upper
    side of the second one, and the geometry they give on [table3]. *)
Definition cover_mixed_limits : Cover :=
  cover_limits_2 [(fin 1, inf); (inf, fin 3)].

Definition geometry_mixed : Geometry :=
  Eval vm_compute in
    match geometry (run_define_bins cover_mixed_limits table3) with
    | Some g => g
    | None => mk_Geometry [] [] [] [] [] [] 0
    end.

(** The middle row of [table3], alone. *)
Definition row_middle : list Q := [1; 1; 2].

Definition table3_middle : ndarray := mk_ndarray 3 [row_middle].

(** The geometry of [cover_2_half] on [table3]. *)
Definition geometry_half : Geometry :=
  Eval vm_compute in
    match geometry (run_define_bins cover_2_half table3) with
    | Some g => g
    | None => mk_Geometry [] [] [] [] [] [] 0
    end.

(** * Properties *)

(** ** Lists as tables of their entries *)

Section Lists.
Context {A B C : Type}.

Lemma length_map2 (f : A -> B -> C) xs ys :
  length (map2 f xs ys) = Nat.min (length xs) (length ys).
Proof.
  revert ys; induction xs as [|x xs IH]; intros [|y ys]; simpl; auto.
Qed.

Lemma map2_map_same {I : Type} (f : A -> B -> C)
  (a : I -> A) (b : I -> B) (s : list I) :
  map2 f (map a s) (map b s) = map (fun j => f (a j) (b j)) s.
Proof.
  induction s as [|i s IH]; simpl; [reflexivity|]. now rewrite IH.
Qed.

Lemma bc_same_length (f : A -> B -> C) xs ys :
  length xs = length ys -> bc f xs ys = map2 f xs ys.
Proof.
  intros E. unfold bc. rewrite E, Nat.eqb_refl. reflexivity.
Qed.

Lemma broadcast_same_length (f : A -> B -> C) xs ys :
  length xs = length ys -> broadcast f xs ys = Ok (map2 f xs ys).
Proof.
  intros E. unfold broadcast, broadcastable.
  rewrite E, Nat.eqb_refl. simpl. rewrite bc_same_length by exact E.
  reflexivity.
Qed.

Lemma nth_map_seq (dflt : A) (f : nat -> A) (a k j : nat) :
  (j < k)%nat -> nth j (map f (seq a k)) dflt = f (a + j)%nat.
Proof.
  revert a j; induction k as [|k IH]; intros a [|j] Hj; simpl; try lia.
  - now rewrite Nat.add_0_r.
  - rewrite IH by lia. f_equal. lia.
Qed.

Lemma nth_table (dflt : A) (f : nat -> A) (k j : nat) :
  (j < k)%nat -> nth j (map f (seq 0 k)) dflt = f j.
Proof. intros Hj. now rewrite nth_map_seq. Qed.

Lemma as_table (dflt : A) (l : list A) (k : nat) :
  length l = k -> l = map (fun j => nth j l dflt) (seq 0 k).
Proof.
  intros <-. apply nth_ext with (d := dflt) (d' := dflt).
  - now rewrite length_map, length_seq.
  - intros n Hn. now rewrite nth_table.
Qed.

Lemma nth_map2 (f : A -> B -> C) (da : A) (db : B) (dc : C) xs ys j :
  (j < length xs)%nat -> (j < length ys)%nat ->
  nth j (map2 f xs ys) dc = f (nth j xs da) (nth j ys db).
Proof.
  revert ys j; induction xs as [|x xs IH]; intros [|y ys] [|j]; simpl;
    intros H1 H2; try lia; auto.
  apply IH; lia.
Qed.
End Lists.

Lemma all_map_true {I : Type} (h : I -> bool) (s : list I) :
  all (map h s) = forallb h s.
Proof.
  unfold all. induction s as [|i s IH]; simpl; [reflexivity|].
  now rewrite IH.
Qed.

Lemma forallb_seq_iff (h : nat -> bool) (k : nat) :
  forallb h (seq 0 k) = true <-> forall j, (j < k)%nat -> h j = true.
Proof.
  rewrite forallb_forall. split.
  - intros H j Hj. apply H. apply in_seq. lia.
  - intros H j Hj. apply in_seq in Hj. apply H. lia.
Qed.

Lemma select_rows_map (rs : list (list Q)) (m : list Q -> bool) :
  select_rows rs (map m rs) = filter m rs.
Proof.
  unfold select_rows. induction rs as [|r rs IH]; simpl; [reflexivity|].
  destruct (m r); simpl; now rewrite IH.
Qed.

Lemma map2_rows {X Y Z' : Type} (f : X -> Y -> Z')
  (a : list Q -> X) (b : list Q -> Y) (rs : list (list Q)) :
  map2 f (map a rs) (map b rs) = map (fun r => f (a r) (b r)) rs.
Proof. apply map2_map_same. Qed.

(** ** The bin of a coordinate, in the words of the specification *)

Lemma in_bin_iff (g : Geometry) (cube : list Z) (r : list Q) :
  in_bin g cube r = true <->
  forall j, (j < nr_dimensions g)%nat ->
    clipped_lower g cube j <= lens r j /\ lens r j <= clipped_upper g cube j.
Proof.
  unfold in_bin. rewrite forallb_seq_iff.
  split; intros H j Hj; specialize (H j Hj).
  - apply andb_true_iff in H. now rewrite !Qle_bool_iff in H.
  - apply andb_true_iff. now rewrite !Qle_bool_iff.
Qed.

Lemma take_columns_lens (data : ndarray) (k : nat) :
  (1 <= k)%nat -> k = (ncols data - 1)%nat ->
  take_columns data (seq 1 k)
  = Ok (map (fun r => map (lens r) (seq 0 k)) (rows data)).
Proof.
  intros Hpos Hk. unfold take_columns.
  destruct (seq 1 k) as [|i0 s0] eqn:Es.
  { destruct k; [lia | discriminate]. }
  rewrite <- Es. clear Es i0 s0.
  assert (E : forallb (fun i => Nat.ltb i (ncols data)) (seq 1 k) = true).
  { apply forallb_forall. intros i Hi. apply in_seq in Hi.
    apply Nat.ltb_lt. lia. }
  rewrite E. f_equal. apply map_ext. intros r.
  rewrite <- seq_shift, map_map. reflexivity.
Qed.

Lemma broadcastable_refl (k : nat) : broadcastable k k = true.
Proof. unfold broadcastable. now rewrite Nat.eqb_refl. Qed.

(** [find_entries] on a geometry of the table's shape is a filter of the
    table's rows by [in_bin]. *)
Lemma find_entries_filter (self : Cover) (g : Geometry) (data : ndarray)
  (cube : list Z) (k : nat) :
  geometry self = Some g ->
  shaped g k ->
  (1 <= k)%nat ->
  k = (ncols data - 1)%nat ->
  length cube = k ->
  find_entries self data cube
  = Ok (mk_ndarray (ncols data) (filter (in_bin g cube) (rows data))).
Proof.
  intros Hg [Hb Ho Hc Hd He Hdi Hnr] Hpos Hk Hcube.
  unfold find_entries. rewrite Hg. unfold np_clip.
  destruct g as [base overlap chunk lo hi dims nr]; simpl in *.
  subst dims nr.
  set (member := in_bin _ cube).
  rewrite (take_columns_lens data k Hpos Hk).
  rewrite (as_table 0%Z cube k Hcube), (as_table 0 base k Hb),
    (as_table 0 overlap k Ho), (as_table 0 chunk k Hc),
    (as_table 0 lo k Hd), (as_table 0 hi k He).
  rewrite map_map.
  repeat (rewrite broadcast_same_length
            by (now rewrite !length_map); cbn [bind];
          rewrite map2_map_same).
  unfold broadcast_rows. rewrite !length_map, !length_seq.
  rewrite broadcastable_refl. cbn [bind].
  rewrite !map_map, map2_rows, map_map, select_rows_map.
  do 2 f_equal. apply filter_ext. intros r.
  rewrite (bc_same_length (fun v lo => Qle_bool lo v))
    by (now rewrite !length_map).
  rewrite (bc_same_length Qle_bool) by (now rewrite !length_map).
  rewrite !map2_map_same.
  rewrite bc_same_length by (now rewrite !length_map).
  rewrite map2_map_same, all_map_true.
  subst member. unfold in_bin. cbn [nr_dimensions].
  reflexivity.
Qed.

(** ** Column minima and maxima *)

Lemma fold_map2_length (op : Q -> Q -> Q) (rs : list (list Q))
  (acc : list Q) (k : nat) :
  length acc = k -> Forall (fun r => length r = k) rs ->
  length (fold_left (map2 op) rs acc) = k.
Proof.
  revert acc; induction rs as [|r rs IH]; intros acc Hacc Hrs; simpl.
  - exact Hacc.
  - inversion Hrs; subst. apply IH; [|assumption].
    rewrite length_map2. lia.
Qed.

Lemma fold_min_le (rs : list (list Q)) (acc : list Q) (k j : nat) :
  length acc = k -> Forall (fun r => length r = k) rs -> (j < k)%nat ->
  nth j (fold_left (map2 Qmin) rs acc) 0 <= nth j acc 0 /\
  forall r, In r rs -> nth j (fold_left (map2 Qmin) rs acc) 0 <= nth j r 0.
Proof.
  revert acc; induction rs as [|r rs IH]; intros acc Hacc Hrs Hj; simpl.
  - split; [apply Qle_refl | intros r []].
  - inversion Hrs as [|? ? Hr Hrs']; subst.
    destruct (IH (map2 Qmin acc r)) as [H1 H2]; auto.
    { rewrite length_map2. lia. }
    rewrite (nth_map2 Qmin 0 0 0) in H1 by lia.
    split.
    + eapply Qle_trans; [exact H1 | apply Q.le_min_l].
    + intros r' [<-|Hin].
      * eapply Qle_trans; [exact H1 | apply Q.le_min_r].
      * now apply H2.
Qed.

Lemma fold_max_ge (rs : list (list Q)) (acc : list Q) (k j : nat) :
  length acc = k -> Forall (fun r => length r = k) rs -> (j < k)%nat ->
  nth j acc 0 <= nth j (fold_left (map2 Qmax) rs acc) 0 /\
  forall r, In r rs -> nth j r 0 <= nth j (fold_left (map2 Qmax) rs acc) 0.
Proof.
  revert acc; induction rs as [|r rs IH]; intros acc Hacc Hrs Hj; simpl.
  - split; [apply Qle_refl | intros r []].
  - inversion Hrs as [|? ? Hr Hrs']; subst.
    destruct (IH (map2 Qmax acc r)) as [H1 H2]; auto.
    { rewrite length_map2. lia. }
    rewrite (nth_map2 Qmax 0 0 0) in H1 by lia.
    split.
    + eapply Qle_trans; [apply Q.le_max_l | exact H1].
    + intros r' [<-|Hin].
      * eapply Qle_trans; [apply Q.le_max_r | exact H1].
      * now apply H2.
Qed.

Lemma np_min_spec (a : list (list Q)) (k : nat) :
  a <> [] -> Forall (fun r => length r = k) a ->
  exists mins, np_min a = Ok mins /\ length mins = k /\
    forall r j, In r a -> (j < k)%nat -> nth j mins 0 <= nth j r 0.
Proof.
  destruct a as [|r0 rs]; [congruence|]. intros _ Ha.
  inversion Ha as [|? ? Hr0 Hrs]; subst.
  eexists; split; [reflexivity|]. split.
  - now apply fold_map2_length.
  - intros r j Hin Hj.
    destruct (fold_min_le rs r0 (length r0) j eq_refl Hrs Hj) as [H1 H2].
    destruct Hin as [<-|Hin]; auto.
Qed.

Lemma np_max_spec (a : list (list Q)) (k : nat) :
  a <> [] -> Forall (fun r => length r = k) a ->
  exists maxs, np_max a = Ok maxs /\ length maxs = k /\
    forall r j, In r a -> (j < k)%nat -> nth j r 0 <= nth j maxs 0.
Proof.
  destruct a as [|r0 rs]; [congruence|]. intros _ Ha.
  inversion Ha as [|? ? Hr0 Hrs]; subst.
  eexists; split; [reflexivity|]. split.
  - now apply fold_map2_length.
  - intros r j Hin Hj.
    destruct (fold_max_ge rs r0 (length r0) j eq_refl Hrs Hj) as [H1 H2].
    destruct Hin as [<-|Hin]; auto.
Qed.

Lemma indexless_shape (data : ndarray) :
  well_shaped data ->
  Forall (fun r => length r = (ncols data - 1)%nat) (map (@tl Q) (rows data)).
Proof.
  unfold well_shaped. intros H. apply Forall_map.
  eapply Forall_impl; [|exact H]. intros r Hr. simpl.
  destruct r; simpl in *; lia.
Qed.

Lemma nth_tl (r : list Q) (j : nat) : nth j (tl r) 0 = lens r j.
Proof. unfold lens. destruct r; simpl; [now destruct j | reflexivity]. Qed.

(** ** What a successful [define_bins] leaves behind *)

Lemma define_bins_inv (self self' : Cover) (data : ndarray)
  (ws : list warning) (coords : list (list Z)) :
  define_bins self data = (self', ws, Ok coords) ->
  exists lower upper lims' base cs,
    resolve_bounds (limits self) (map (@tl Q) (rows data))
      = Ok (lower, upper, lims', ws) /\
    divide (bc Qminus upper lower) (n_cubes self) = Ok base /\
    cubes (n_cubes self) (ncols data - 1) = Ok cs /\
    self' = mk_Cover (n_cubes self) (perc_overlap self) lims'
              (Some (geometry_of (perc_overlap self) lower upper base
                       (ncols data - 1))) /\
    coords = product (map range cs).
Proof.
  unfold define_bins. intros H.
  destruct (resolve_bounds _ _) as [[[[lower upper] lims'] ws0]|e] eqn:Eb;
    [|discriminate].
  destruct (divide _ _) as [base|e] eqn:Ed; [|discriminate].
  cbn [nr_dimensions] in H. rewrite length_seq in H.
  destruct (cubes _ _) as [cs|e] eqn:Ec; [|discriminate].
  inversion H; subst.
  exists lower, upper, lims', base, cs.
  repeat split; assumption.
Qed.

Lemma assign_column_same (k : nat) (v : list Q) :
  length v = k -> assign_column k v = Ok v.
Proof. intros E. unfold assign_column. now rewrite E, Nat.eqb_refl. Qed.

Lemma resolve_bounds_shape (lims lims' : option (list (limit * limit)))
  (a : list (list Q)) (k : nat) (lower upper : list Q) (ws : list warning) :
  Forall (fun r => length r = k) a ->
  match lims with None => True | Some l => length l = k end ->
  resolve_bounds lims a = Ok (lower, upper, lims', ws) ->
  length lower = k /\ length upper = k.
Proof.
  intros Ha Hl H.
  assert (Hne : a <> []).
  { intros ->. destruct lims; discriminate. }
  destruct (np_min_spec a k Hne Ha) as (mins & Emin & Lmin & _).
  destruct (np_max_spec a k Hne Ha) as (maxs & Emax & Lmax & _).
  unfold resolve_bounds in H. rewrite Emin, Emax in H. cbn [bind] in H.
  destruct lims as [l|].
  - rewrite !assign_column_same in H by congruence. cbn [bind] in H.
    rewrite !broadcast_same_length in H
      by (rewrite length_map2, length_map; lia).
    cbn [bind] in H. inversion H; subst.
    rewrite !length_map2, !length_map. lia.
  - inversion H; subst. auto.
Qed.

Lemma cubes_length (n : cubes_arg) (k : nat) (cs : list Z) :
  cubes n k = Ok cs -> length cs = k.
Proof.
  destruct n as [n|l]; simpl.
  - intros H; inversion H. apply repeat_length.
  - destruct (Nat.eqb_spec (length l) k); intros H; inversion H; subst; auto.
Qed.

Lemma divide_cubes (x : list Q) (n : cubes_arg) (k : nat) (cs : list Z) :
  length x = k -> cubes n k = Ok cs ->
  divide x n = Ok (map2 Qdiv x (map inject_Z cs)).
Proof.
  intros Hx Hcs. destruct n as [n|l]; simpl in *.
  - inversion Hcs; subst. f_equal. clear.
    induction x as [|v x IH]; simpl; [reflexivity|]. now rewrite IH.
  - destruct (Nat.eqb_spec (length l) k); inversion Hcs; subst.
    apply broadcast_same_length. now rewrite length_map.
Qed.

Lemma define_bins_shaped (self self' : Cover) (data : ndarray)
  (ws : list warning) (coords : list (list Z)) :
  well_shaped data -> limits_match self data ->
  define_bins self data = (self', ws, Ok coords) ->
  exists g, geometry self' = Some g /\ shaped g (ncols data - 1).
Proof.
  intros Hd Hl H.
  destruct (define_bins_inv _ _ _ _ _ H)
    as (lower & upper & lims' & base & cs & Hb & Hdiv & Hcs & -> & _).
  eexists; split; [reflexivity|].
  destruct (resolve_bounds_shape _ _ _ _ _ _ _ (indexless_shape data Hd) Hl Hb)
    as [Llo Lhi].
  assert (Lb : length base = (ncols data - 1)%nat).
  { rewrite (divide_cubes _ _ (ncols data - 1) cs) in Hdiv; auto.
    - inversion Hdiv. rewrite length_map2, length_map.
      rewrite bc_same_length by congruence. rewrite length_map2.
      apply cubes_length in Hcs. lia.
    - rewrite bc_same_length by congruence. rewrite length_map2. lia. }
  unfold geometry_of. constructor; cbn; auto.
  - now rewrite length_map.
  - rewrite bc_same_length by now rewrite !length_map.
    rewrite length_map2, !length_map. lia.
Qed.

(** ** Membership (find_entries) *)

Lemma table3_well_shaped : well_shaped table3.
Proof. repeat constructor. Qed.

Example find_entries_table3 :
  find_entries (run_define_bins cover_2_half table3) table3 [0; 1]%Z
  = Ok (mk_ndarray 3 [[1; 1; 2]]).
Proof. vm_compute. reflexivity. Qed.

(** ** Enumeration of the coordinates *)

Section Product.
Context {A : Type}.

Lemma length_product (pools : list (list A)) :
  length (product pools)
  = fold_right (fun pool acc => (length pool * acc)%nat) 1%nat pools.
Proof.
  induction pools as [|pool rest IH]; simpl; [reflexivity|].
  rewrite <- IH. clear IH.
  induction pool as [|x pool IHp]; simpl; [reflexivity|].
  now rewrite length_app, length_map, IHp.
Qed.

Lemma in_product (c : list A) (pools : list (list A)) :
  In c (product pools) <-> Forall2 (fun x pool => In x pool) c pools.
Proof.
  revert c; induction pools as [|pool rest IH]; intros c; simpl.
  - split.
    + intros [<-|[]]. constructor.
    + intros H; inversion H. now left.
  - rewrite in_flat_map. split.
    + intros (x & Hx & Hc). apply in_map_iff in Hc.
      destruct Hc as (c' & <- & Hc'). constructor; [exact Hx|].
      now apply IH.
    + intros H. inversion H as [|x pool' c' rest' Hx Hc']; subst.
      exists x. split; [exact Hx|]. apply in_map. now apply IH.
Qed.
End Product.

Lemma strongly_sorted_app {A : Type} (R : A -> A -> Prop) (l1 l2 : list A) :
  StronglySorted R l1 -> StronglySorted R l2 ->
  (forall a b, In a l1 -> In b l2 -> R a b) ->
  StronglySorted R (l1 ++ l2).
Proof.
  intros H1 H2 H12. induction H1 as [|a l1 Hl1 IH Ha]; simpl; [exact H2|].
  constructor.
  - apply IH. intros x y Hx Hy. apply H12; [now right | exact Hy].
  - apply Forall_app. split; [exact Ha|].
    apply Forall_forall. intros b Hb. apply H12; [now left | exact Hb].
Qed.

Lemma strongly_sorted_map {A B : Type} (R : A -> A -> Prop)
  (S' : B -> B -> Prop) (f : A -> B) (l : list A) :
  (forall a b, R a b -> S' (f a) (f b)) ->
  StronglySorted R l -> StronglySorted S' (map f l).
Proof.
  intros Hf H. induction H as [|a l Hl IH Ha]; simpl; constructor; auto.
  apply Forall_map. eapply Forall_impl; [|exact Ha]. intros b. apply Hf.
Qed.

Lemma seq_strongly_sorted (a k : nat) : StronglySorted lt (seq a k).
Proof.
  revert a; induction k as [|k IH]; intros a; simpl; constructor; auto.
  apply Forall_forall. intros b Hb. apply in_seq in Hb. lia.
Qed.

Lemma range_strongly_sorted (n : Z) : StronglySorted Z.lt (range n).
Proof.
  unfold range. apply strongly_sorted_map with (R := lt).
  - intros a b. lia.
  - apply seq_strongly_sorted.
Qed.

Lemma in_range (x n : Z) : In x (range n) <-> (0 <= x < n)%Z.
Proof.
  unfold range. rewrite in_map_iff. split.
  - intros (i & <- & Hi). apply in_seq in Hi. lia.
  - intros H. exists (Z.to_nat x). split; [lia|]. apply in_seq. lia.
Qed.

Lemma length_range (n : Z) : length (range n) = Z.to_nat n.
Proof. unfold range. now rewrite length_map, length_seq. Qed.

Lemma product_sorted (pools : list (list Z)) :
  Forall (StronglySorted Z.lt) pools ->
  StronglySorted lex_lt (product pools).
Proof.
  induction 1 as [|pool rest Hpool Hrest IH]; simpl.
  - repeat constructor.
  - induction Hpool as [|x pool Hp IHp Hx]; simpl; [constructor|].
    apply strongly_sorted_app.
    + apply strongly_sorted_map with (R := lex_lt); [|exact IH].
      intros a b. apply lex_next.
    + exact IHp.
    + intros a b Ha Hb. apply in_map_iff in Ha. destruct Ha as (a' & <- & _).
      apply in_flat_map in Hb. destruct Hb as (y & Hy & Hb).
      apply in_map_iff in Hb. destruct Hb as (b' & <- & _).
      apply lex_first. rewrite Forall_forall in Hx. now apply Hx.
Qed.

Lemma product_of_counts (cs : list Z) :
  Forall (fun n => (0 <= n)%Z) cs ->
  Z.of_nat (length (product (map range cs))) = fold_right Z.mul 1%Z cs.
Proof.
  rewrite length_product.
  induction 1 as [|n cs Hn Hcs IH]; simpl; [reflexivity|].
  rewrite Nat2Z.inj_mul, IH, length_range. lia.
Qed.

Lemma in_coordinates (c cs : list Z) :
  In c (product (map range cs)) <->
  Forall2 (fun x n => (0 <= x < n)%Z) c cs.
Proof.
  rewrite in_product. split.
  - intros H. remember (map range cs) as pools eqn:E.
    revert cs E. induction H as [|x pool c pools Hx Hc IH]; intros cs E.
    + destruct cs; [constructor | discriminate].
    + destruct cs as [|n cs]; [discriminate|]. inversion E; subst.
      constructor; [now apply in_range | now apply IH].
  - induction 1 as [|x n c cs Hx Hc IH]; simpl; constructor; auto.
    now apply in_range.
Qed.

Lemma resolve_bounds_total (lims : option (list (limit * limit)))
  (a : list (list Q)) (k : nat) :
  a <> [] -> Forall (fun r => length r = k) a ->
  match lims with None => True | Some l => length l = k end ->
  exists lower upper lims' ws,
    resolve_bounds lims a = Ok (lower, upper, lims', ws).
Proof.
  intros Hne Ha Hl.
  destruct (np_min_spec a k Hne Ha) as (mins & Emin & Lmin & _).
  destruct (np_max_spec a k Hne Ha) as (maxs & Emax & Lmax & _).
  unfold resolve_bounds. rewrite Emin, Emax. cbn [bind].
  destruct lims as [l|].
  - rewrite !assign_column_same by congruence. cbn [bind].
    rewrite !broadcast_same_length
      by (rewrite length_map2, length_map; lia).
    cbn [bind]. eauto.
  - eauto.
Qed.

Lemma cubes_of_match (self : Cover) (data : ndarray) :
  cubes_match self data ->
  cubes (n_cubes self) (ncols data - 1)
  = Ok (cubes_of (n_cubes self) (ncols data - 1)).
Proof.
  unfold cubes_match, cubes, cubes_of. destruct (n_cubes self) as [n|l].
  - reflexivity.
  - intros ->. now rewrite Nat.eqb_refl.
Qed.

Lemma define_bins_total (self : Cover) (data : ndarray) :
  well_shaped data -> rows data <> [] ->
  limits_match self data -> cubes_match self data ->
  exists self' ws,
    define_bins self data
    = (self', ws,
       Ok (product (map range (cubes_of (n_cubes self) (ncols data - 1))))).
Proof.
  intros Hd Hne Hl Hc.
  assert (Hne' : map (@tl Q) (rows data) <> []).
  { destruct (rows data); [congruence | discriminate]. }
  destruct (resolve_bounds_total (limits self) _ _ Hne'
              (indexless_shape data Hd) Hl)
    as (lower & upper & lims' & ws & Hb).
  destruct (resolve_bounds_shape _ _ _ _ _ _ _ (indexless_shape data Hd) Hl Hb)
    as [Llo Lhi].
  pose proof (cubes_of_match self data Hc) as Hcs.
  unfold define_bins. rewrite Hb.
  rewrite (divide_cubes _ _ (ncols data - 1) _ ) with (2 := Hcs).
  2:{ rewrite bc_same_length by congruence. rewrite length_map2. lia. }
  cbn [nr_dimensions]. rewrite length_seq, Hcs. eauto.
Qed.

(** C2.  On a non-empty table, with [limits] and [n_cubes] of the table's
    dimension count, [define_bins] returns the Cartesian product of
    [range(n)] over the per-dimension cube counts [n]: a coordinate is in the
    list exactly when each of its entries lies in [0, n) for its dimension,
    the list is strictly increasing in the lexicographic order whose most
    significant entry is the first dimension (so the first dimension varies
    slowest and no coordinate is repeated), and, the counts being
    non-negative, its length is their product. *)
Theorem define_bins_coordinates (self : Cover) (data : ndarray) :
  well_shaped data -> rows data <> [] ->
  limits_match self data -> cubes_match self data ->
  Forall (fun n => (0 <= n)%Z) (cubes_of (n_cubes self) (ncols data - 1)) ->
  exists self' ws coords,
    define_bins self data = (self', ws, Ok coords) /\
    coords = product (map range (cubes_of (n_cubes self) (ncols data - 1))) /\
    Z.of_nat (length coords)
    = fold_right Z.mul 1%Z (cubes_of (n_cubes self) (ncols data - 1)) /\
    (forall c, In c coords <->
       Forall2 (fun x n => (0 <= x < n)%Z) c
         (cubes_of (n_cubes self) (ncols data - 1))) /\
    StronglySorted lex_lt coords.
Proof.
  intros Hd Hne Hl Hc Hpos.
  destruct (define_bins_total self data Hd Hne Hl Hc) as (self' & ws & H).
  exists self', ws, (product (map range (cubes_of (n_cubes self) (ncols data - 1)))).
  split; [exact H|]. split; [reflexivity|]. split; [|split].
  - now apply product_of_counts.
  - intros c. apply in_coordinates.
  - apply product_sorted. apply Forall_map. apply Forall_forall.
    intros n _. apply range_strongly_sorted.
Qed.

Lemma define_bins_coordinates_witness :
  exists self' ws coords,
    define_bins cover_list_2_3 table3 = (self', ws, Ok coords) /\
    coords = product (map range [2; 3]%Z) /\
    Z.of_nat (length coords) = fold_right Z.mul 1%Z [2; 3]%Z /\
    (forall c, In c coords <->
       Forall2 (fun x n => (0 <= x < n)%Z) c [2; 3]%Z) /\
    StronglySorted lex_lt coords.
Proof.
  apply (define_bins_coordinates cover_list_2_3 table3).
  - exact table3_well_shaped.
  - discriminate.
  - exact I.
  - reflexivity.
  - repeat constructor; discriminate.
Defined.

Example define_bins_order :
  snd (define_bins cover_list_2_3 table3)
  = Ok [[0; 0]; [0; 1]; [0; 2]; [1; 0]; [1; 1]; [1; 2]]%Z.
Proof. vm_compute. reflexivity. Qed.

(** ** Per-dimension view of the geometry *)

Lemma nth_map_lt {A B : Type} (f : A -> B) (l : list A) (da : A) (db : B)
  (j : nat) :
  (j < length l)%nat -> nth j (map f l) db = f (nth j l da).
Proof.
  revert j; induction l as [|a l IH]; intros [|j] Hj; simpl in *;
    try lia; auto.
  apply IH. lia.
Qed.

Lemma finite_choice {A : Type} (dflt : A) (P : nat -> A -> Prop) (k : nat) :
  (forall j, (j < k)%nat -> exists a, P j a) ->
  exists l, length l = k /\ forall j, (j < k)%nat -> P j (nth j l dflt).
Proof.
  induction k as [|k IH]; intros H.
  - exists []. split; [reflexivity|]. intros j Hj. lia.
  - destruct IH as (l & Hl & HP). { intros j Hj. apply H. lia. }
    destruct (H k) as (a & Ha); [lia|].
    exists (l ++ [a]). split.
    + rewrite length_app. simpl. lia.
    + intros j Hj. destruct (Nat.eq_dec j k) as [->|Hne].
      * rewrite app_nth2 by lia. rewrite Hl, Nat.sub_diag. exact Ha.
      * rewrite app_nth1 by lia. apply HP. lia.
Qed.

Lemma Forall2_of_nth {A B : Type} (R : A -> B -> Prop) (da : A) (db : B)
  (l : list A) (l' : list B) :
  length l = length l' ->
  (forall j, (j < length l)%nat -> R (nth j l da) (nth j l' db)) ->
  Forall2 R l l'.
Proof.
  revert l'; induction l as [|a l IH]; intros [|b l'] Hlen H;
    simpl in *; try discriminate; constructor.
  - apply (H 0%nat). lia.
  - apply IH; [lia|]. intros j Hj. apply (H (S j)). lia.
Qed.

Lemma nth_of_Forall2 {A B : Type} (R : A -> B -> Prop) (da : A) (db : B)
  (l : list A) (l' : list B) (j : nat) :
  Forall2 R l l' -> (j < length l)%nat -> R (nth j l da) (nth j l' db).
Proof.
  intros H; revert j; induction H as [|a b l l' Hab H IH]; intros [|j] Hj;
    simpl in *; try lia; auto.
  apply IH. lia.
Qed.

Lemma Forall2_length_eq {A B : Type} (R : A -> B -> Prop)
  (l : list A) (l' : list B) :
  Forall2 R l l' -> length l = length l'.
Proof. induction 1; simpl; congruence. Qed.

Lemma geometry_at_dimension (p : Q) (lower upper : list Q) (cs : list Z)
  (k j : nat) :
  length lower = k -> length upper = k -> length cs = k -> (j < k)%nat ->
  at_dimension (geometry_of p lower upper (widths upper lower cs) k)
    p lower upper cs j.
Proof.
  intros Hlo Hhi Hcs Hj.
  assert (Lw : length (widths upper lower cs) = k).
  { unfold widths. rewrite bc_same_length by congruence.
    rewrite !length_map2, length_map. lia. }
  assert (Eb : nth j (widths upper lower cs) 0
               = (nth j upper 0 - nth j lower 0) / inject_Z (nth j cs 0%Z)).
  { unfold widths. rewrite bc_same_length by congruence.
    rewrite (nth_map2 Qdiv 0 0 0)
      by (rewrite ?length_map2, ?length_map; lia).
    rewrite (nth_map2 Qminus 0 0 0) by lia.
    rewrite (nth_map_lt inject_Z cs 0%Z 0) by lia. reflexivity. }
  unfold geometry_of. constructor; cbn [d end_ base_dist overlap_dist chunk_dist].
  - reflexivity.
  - reflexivity.
  - exact Eb.
  - now rewrite (nth_map_lt (Qmult p) _ 0 0) by lia.
  - rewrite bc_same_length by now rewrite !length_map.
    rewrite (nth_map2 Qplus 0 0 0) by (rewrite ?length_map; lia).
    rewrite (nth_map_lt (fun o => o * 2) _ 0 0) by (rewrite length_map; lia).
    now rewrite (nth_map_lt (Qmult p) _ 0 0) by lia.
Qed.

(** A successful [define_bins], dimension by dimension. *)
Lemma define_bins_geometry (self self' : Cover) (data : ndarray)
  (ws : list warning) (coords : list (list Z)) :
  well_shaped data -> limits_match self data ->
  define_bins self data = (self', ws, Ok coords) ->
  exists g lower upper lims' cs,
    resolve_bounds (limits self) (map (@tl Q) (rows data))
      = Ok (lower, upper, lims', ws) /\
    cubes (n_cubes self) (ncols data - 1) = Ok cs /\
    coords = product (map range cs) /\
    geometry self' = Some g /\
    shaped g (ncols data - 1) /\
    forall j, (j < ncols data - 1)%nat ->
      at_dimension g (perc_overlap self) lower upper cs j.
Proof.
  intros Hd Hl H.
  destruct (define_bins_shaped _ _ _ _ _ Hd Hl H) as (g & Hg & Hs).
  destruct (define_bins_inv _ _ _ _ _ H)
    as (lower & upper & lims' & base & cs & Hb & Hdiv & Hcs & -> & ->).
  destruct (resolve_bounds_shape _ _ _ _ _ _ _ (indexless_shape data Hd) Hl Hb)
    as [Llo Lhi].
  rewrite (divide_cubes _ _ (ncols data - 1) cs) in Hdiv; auto.
  2:{ rewrite bc_same_length by congruence. rewrite length_map2. lia. }
  inversion Hdiv; subst base. cbn [geometry] in Hg. inversion Hg; subst g.
  exists (geometry_of (perc_overlap self) lower upper
            (widths upper lower cs) (ncols data - 1)), lower, upper, lims', cs.
  repeat split; auto.
  all: try (destruct Hs; assumption).
  all: intros; apply geometry_at_dimension; auto.
  all: eapply cubes_length; eassumption.
Qed.

(** ** Coverage *)

Lemma clip1_le (a lo hi x : Q) : a <= x -> lo <= x -> clip1 a lo hi <= x.
Proof.
  intros Ha Hlo. unfold clip1.
  eapply Qle_trans; [apply Q.le_min_l|]. now apply Q.max_lub.
Qed.

Lemma le_clip1 (a lo hi x : Q) : x <= a -> x <= hi -> x <= clip1 a lo hi.
Proof.
  intros Ha Hhi. unfold clip1. apply Q.min_glb; [|exact Hhi].
  eapply Qle_trans; [exact Ha | apply Q.le_max_l].
Qed.

(** A point of [[lo, lo + m b]] lies in one of the [m] cells of width [b]. *)
Lemma cell_exists (lo b x : Q) (m : nat) :
  lo <= x -> x <= lo + inject_Z (Z.of_nat (S m)) * b ->
  exists i : Z,
    (0 <= i < Z.of_nat (S m))%Z /\
    lo + inject_Z i * b <= x /\ x <= lo + (inject_Z i + 1) * b.
Proof.
  intros Hlo. induction m as [|m IH]; intros Hhi.
  - exists 0%Z. split; [lia|]. change (inject_Z 0) with 0.
    change (inject_Z (Z.of_nat 1)) with 1 in Hhi. split; lra.
  - destruct (Qlt_le_dec (lo + inject_Z (Z.of_nat (S m)) * b) x) as [Hgt|Hle].
    + exists (Z.of_nat (S m)). split; [lia|]. split; [lra|].
      replace (Z.of_nat (S (S m))) with (Z.of_nat (S m) + 1)%Z in Hhi by lia.
      rewrite inject_Z_plus in Hhi. exact Hhi.
    + destruct (IH Hle) as (i & Hi & H1 & H2).
      exists i. split; [lia|]. split; assumption.
Qed.

(** The bin that covers a point of the covered range, on one dimension. *)
Lemma covering_cell (lo hi x p : Q) (n : Z) :
  lo <= x -> x <= hi -> 0 <= p -> (1 <= n)%Z ->
  exists i : Z,
    (0 <= i < n)%Z /\
    let b := (hi - lo) / inject_Z n in
    clip1 (lo + inject_Z i * b - p * b) lo hi <= x /\
    x <= clip1 (lo + inject_Z i * b - p * b + (b + p * b * 2)) lo hi.
Proof.
  intros Hlo Hhi Hp Hn.
  set (b := (hi - lo) / inject_Z n).
  assert (Hn0 : 0 < inject_Z n).
  { change 0 with (inject_Z 0). rewrite <- Zlt_Qlt. lia. }
  assert (Hnb : inject_Z n * b == hi - lo).
  { unfold b. apply Qmult_div_r. lra. }
  assert (Hb : 0 <= b).
  { unfold b. apply Qle_shift_div_l; [exact Hn0|]. lra. }
  assert (Hpb : 0 <= p * b) by now apply Qmult_le_0_compat.
  destruct (cell_exists lo b x (Z.to_nat (n - 1)) Hlo) as (i & Hi & H1 & H2).
  { replace (Z.of_nat (S (Z.to_nat (n - 1)))) with n by lia. lra. }
  exists i. split; [lia|]. cbv zeta. fold b. split.
  - apply clip1_le; lra.
  - apply le_clip1; lra.
Qed.

Lemma resolve_bounds_none (a : list (list Q)) (k : nat)
  (lower upper : list Q) (lims' : option (list (limit * limit)))
  (ws : list warning) :
  Forall (fun r => length r = k) a ->
  resolve_bounds None a = Ok (lower, upper, lims', ws) ->
  forall r j, In r a -> (j < k)%nat ->
    nth j lower 0 <= nth j r 0 /\ nth j r 0 <= nth j upper 0.
Proof.
  intros Ha H r j Hr Hj.
  assert (Hne : a <> []) by (intros ->; destruct Hr).
  destruct (np_min_spec a k Hne Ha) as (mins & Emin & _ & Hmin).
  destruct (np_max_spec a k Hne Ha) as (maxs & Emax & _ & Hmax).
  unfold resolve_bounds in H. rewrite Emin, Emax in H. cbn [bind] in H.
  inversion H; subst. split; [now apply Hmin | now apply Hmax].
Qed.

(** C1.  After [define_bins] has succeeded on a table with at least one lens
    column, [find_entries] on that table and one of the returned coordinates
    returns the table's rows filtered by bin membership: whole rows (row
    identifier included), in their input order, and a row passes exactly
    when on every dimension its lens coordinate lies between the clipped
    lower and the clipped upper bound of the bin, both ends included.  A
    returned coordinate exists only when every dimension has at least one
    cube, so no width is the quotient of a division by zero. *)
Theorem find_entries_exact (self self' : Cover) (data : ndarray)
  (ws : list warning) (coords : list (list Z)) (cube : list Z) :
  well_shaped data ->
  (2 <= ncols data)%nat ->
  limits_match self data ->
  define_bins self data = (self', ws, Ok coords) ->
  In cube coords ->
  exists g,
    geometry self' = Some g /\
    find_entries self' data cube
    = Ok (mk_ndarray (ncols data) (filter (in_bin g cube) (rows data))) /\
    forall r,
      in_bin g cube r = true <->
      forall j, (j < ncols data - 1)%nat ->
        clipped_lower g cube j <= lens r j /\
        lens r j <= clipped_upper g cube j.
Proof.
  intros Hd Hcols Hl Hdef Hin.
  destruct (define_bins_geometry _ _ _ _ _ Hd Hl Hdef)
    as (g & _ & _ & _ & cs & _ & Hcs & -> & Hg & Hs & _).
  apply in_coordinates in Hin.
  assert (Hcube : length cube = (ncols data - 1)%nat).
  { rewrite (Forall2_length_eq _ _ _ Hin). now apply cubes_length in Hcs. }
  exists g. split; [exact Hg|]. split.
  - apply find_entries_filter with (k := (ncols data - 1)%nat); auto. lia.
  - intros r. rewrite in_bin_iff. now rewrite (shaped_nr _ _ Hs).
Qed.

Lemma find_entries_exact_witness :
  exists g,
    geometry (run_define_bins cover_2_half table3) = Some g /\
    find_entries (run_define_bins cover_2_half table3) table3 [0; 1]%Z
    = Ok (mk_ndarray 3 (filter (in_bin g [0; 1]%Z) (rows table3))) /\
    forall r,
      in_bin g [0; 1]%Z r = true <->
      forall j, (j < 3 - 1)%nat ->
        clipped_lower g [0; 1]%Z j <= lens r j /\
        lens r j <= clipped_upper g [0; 1]%Z j.
Proof.
  apply (find_entries_exact cover_2_half (run_define_bins cover_2_half table3)
           table3 [] (product [range 2; range 2]) [0; 1]%Z).
  - exact table3_well_shaped.
  - simpl. lia.
  - exact I.
  - vm_compute. reflexivity.
  - simpl. auto.
Defined.

(** Coverage in exact arithmetic (the rounding of binary64 is treated in the
    last part).  With [limits=None], a non-negative overlap fraction and at least
    one cube on every dimension, [define_bins] succeeds on every table that
    has a row and a lens column, and for every row of the table one of the returned
    coordinates has that row in its [find_entries] result. *)
Theorem coverage (self : Cover) (data : ndarray) (r : list Q) :
  well_shaped data ->
  (2 <= ncols data)%nat ->
  limits self = None ->
  cubes_match self data ->
  0 <= perc_overlap self ->
  Forall (fun n => (1 <= n)%Z) (cubes_of (n_cubes self) (ncols data - 1)) ->
  In r (rows data) ->
  exists self' ws coords cube out,
    define_bins self data = (self', ws, Ok coords) /\
    In cube coords /\
    find_entries self' data cube = Ok out /\
    In r (rows out).
Proof.
  intros Hd Hcols Hnone Hc Hp Hpos Hr.
  assert (Hl : limits_match self data).
  { unfold limits_match. now rewrite Hnone. }
  assert (Hne : rows data <> []) by (intros E; rewrite E in Hr; destruct Hr).
  destruct (define_bins_total self data Hd Hne Hl Hc) as (self' & ws & H).
  destruct (define_bins_geometry _ _ _ _ _ Hd Hl H)
    as (g & lower & upper & lims' & cs & Hb & Hcs & Hco & Hg & Hs & Hdim).
  rewrite (cubes_of_match self data Hc) in Hcs. inversion Hcs as [Ecs].
  rewrite Ecs in *. clear Hcs.
  rewrite Hnone in Hb.
  pose proof (resolve_bounds_none _ _ _ _ _ _ (indexless_shape data Hd) Hb
                (tl r)) as Hbounds.
  set (k := (ncols data - 1)%nat) in *.
  destruct (finite_choice 0%Z
    (fun j i =>
       (0 <= i < nth j cs 0%Z)%Z /\
       let b := (nth j upper 0 - nth j lower 0) / inject_Z (nth j cs 0%Z) in
       clip1 (nth j lower 0 + inject_Z i * b - perc_overlap self * b)
         (nth j lower 0) (nth j upper 0) <= lens r j /\
       lens r j <=
       clip1 (nth j lower 0 + inject_Z i * b - perc_overlap self * b
              + (b + perc_overlap self * b * 2))
         (nth j lower 0) (nth j upper 0)) k)
    as (cube & Lcube & Hcube).
  { intros j Hj.
    destruct (Hbounds j (in_map _ _ _ Hr) Hj) as [H1 H2].
    rewrite nth_tl in H1, H2.
    apply covering_cell; auto.
    apply (nth_of_Forall2 (fun n _ => (1 <= n)%Z) 0%Z 0%Z cs cs).
    - clear -Hpos. induction Hpos; constructor; auto.
    - rewrite <- Ecs. unfold cubes_of.
      pose proof (cubes_length _ _ _ (cubes_of_match self data Hc)) as E.
      unfold cubes_of in E. fold k in E. lia. }
  assert (Lcs : length cs = k).
  { rewrite <- Ecs. apply (cubes_length (n_cubes self)).
    apply cubes_of_match. exact Hc. }
  exists self', ws, (product (map range cs)), cube.
  exists (mk_ndarray (ncols data) (filter (in_bin g cube) (rows data))).
  split; [exact H|]. split; [|split].
  - apply in_coordinates.
    apply (Forall2_of_nth _ 0%Z 0%Z); [congruence|].
    intros j Hj. apply Hcube. lia.
  - apply find_entries_filter with (k := k); auto. unfold k. lia.
  - cbn [rows]. apply filter_In. split; [exact Hr|].
    apply in_bin_iff. rewrite (shaped_nr _ _ Hs). intros j Hj.
    destruct (Hcube j Hj) as [_ Hin]. cbv zeta in Hin.
    destruct (Hdim j Hj) as [Ed Ee Ebase Eo Ech].
    unfold clipped_lower, clipped_upper, unclipped_upper, unclipped_lower.
    rewrite Ed, Ee, Eo, Ech, Ebase. exact Hin.
Qed.

Lemma coverage_witness :
  exists self' ws coords cube out,
    define_bins cover_2_half table3 = (self', ws, Ok coords) /\
    In cube coords /\
    find_entries self' table3 cube = Ok out /\
    In [1; 1; 2] (rows out).
Proof.
  apply (coverage cover_2_half table3 [1; 1; 2]).
  - exact table3_well_shaped.
  - simpl. lia.
  - reflexivity.
  - exact I.
  - vm_compute. discriminate.
  - repeat constructor; discriminate.
  - simpl. auto.
Defined.

(** ** Monotonicity in the overlap fraction *)

Lemma filter_filter {A : Type} (f g : A -> bool) (l : list A) :
  filter g (filter f l) = filter (fun a => f a && g a) l.
Proof.
  induction l as [|a l IH]; simpl; [reflexivity|].
  destruct (f a); simpl; [destruct (g a)|]; now rewrite IH.
Qed.

Lemma length_filter_mono {A : Type} (f g : A -> bool) (l : list A) :
  (forall a, In a l -> f a = true -> g a = true) ->
  (length (filter f l) <= length (filter g l))%nat.
Proof.
  induction l as [|a l IH]; intros H; simpl; [lia|].
  assert (IH' := IH (fun b Hb => H b (or_intror Hb))).
  destruct (f a) eqn:Ef.
  - rewrite (H a (or_introl eq_refl) Ef). simpl. lia.
  - destruct (g a); simpl; lia.
Qed.

Lemma incl_filter_mono {A : Type} (f g : A -> bool) (l : list A) :
  (forall a, In a l -> f a = true -> g a = true) ->
  incl (filter f l) (filter g l).
Proof.
  intros H a Ha. apply filter_In in Ha. destruct Ha as [Hin Hf].
  apply filter_In. split; [exact Hin | now apply H].
Qed.

Lemma common_mono (rs : list (list Q)) (m1 m2 m1' m2' : list Q -> bool) :
  (forall r, m1 r = true -> m2 r = true) ->
  (forall r, m1' r = true -> m2' r = true) ->
  (length (common (filter m1 rs) (filter m1' rs))
   <= length (common (filter m2 rs) (filter m2' rs)))%nat.
Proof.
  intros H H'. unfold common. rewrite !filter_filter.
  apply length_filter_mono. intros r _ Hr.
  apply andb_true_iff in Hr. destruct Hr as [Hm Hex].
  apply andb_true_iff. split; [now apply H|].
  apply existsb_exists in Hex. destruct Hex as (s & Hs & Hrs).
  apply existsb_exists. exists s. split; [|exact Hrs].
  apply (incl_filter_mono m1' m2' rs); auto.
Qed.

Lemma clip1_mono (a a' lo hi : Q) :
  a <= a' -> clip1 a lo hi <= clip1 a' lo hi.
Proof.
  intros H. unfold clip1.
  apply Q.min_le_compat_r. now apply Q.max_le_compat_r.
Qed.

Lemma clip1_crossed (a a' lo hi : Q) :
  hi < lo -> clip1 a lo hi <= clip1 a' lo hi.
Proof.
  intros H. unfold clip1.
  eapply Qle_trans; [apply Q.le_min_r|].
  apply Q.min_glb; [|apply Qle_refl].
  eapply Qle_trans; [|apply Q.le_max_r]. now apply Qlt_le_weak.
Qed.

(** One dimension of a bin can only widen when the overlap fraction grows. *)
Lemma widen_cell (lo hi p1 p2 x : Q) (i n : Z) :
  (1 <= n)%Z -> p1 <= p2 ->
  let b := (hi - lo) / inject_Z n in
  clip1 (lo + inject_Z i * b - p1 * b) lo hi <= x /\
  x <= clip1 (lo + inject_Z i * b - p1 * b + (b + p1 * b * 2)) lo hi ->
  clip1 (lo + inject_Z i * b - p2 * b) lo hi <= x /\
  x <= clip1 (lo + inject_Z i * b - p2 * b + (b + p2 * b * 2)) lo hi.
Proof.
  intros Hn Hp b [H1 H2].
  destruct (Qlt_le_dec hi lo) as [Hx|Hle].
  - split.
    + eapply Qle_trans; [apply clip1_crossed; exact Hx | exact H1].
    + eapply Qle_trans; [exact H2 | apply clip1_crossed; exact Hx].
  - assert (Hn0 : 0 < inject_Z n).
    { change 0 with (inject_Z 0). rewrite <- Zlt_Qlt. lia. }
    assert (Hb : 0 <= b).
    { unfold b. apply Qle_shift_div_l; [exact Hn0|]. lra. }
    assert (Hpb : p1 * b <= p2 * b) by now apply Qmult_le_compat_r.
    split.
    + eapply Qle_trans; [apply clip1_mono | exact H1]. lra.
    + eapply Qle_trans; [exact H2 | apply clip1_mono]. lra.
Qed.

Lemma in_bin_widens (g1 g2 : Geometry) (p1 p2 : Q) (lower upper : list Q)
  (cs cube : list Z) (k : nat) (r : list Q) :
  nr_dimensions g1 = k -> nr_dimensions g2 = k ->
  (forall j, (j < k)%nat -> at_dimension g1 p1 lower upper cs j) ->
  (forall j, (j < k)%nat -> at_dimension g2 p2 lower upper cs j) ->
  length cs = k ->
  Forall2 (fun x n => (0 <= x < n)%Z) cube cs ->
  p1 <= p2 ->
  in_bin g1 cube r = true -> in_bin g2 cube r = true.
Proof.
  intros N1 N2 D1 D2 Lcs Hcube Hp.
  rewrite !in_bin_iff, N1, N2. intros H j Hj.
  specialize (H j Hj).
  destruct (D1 j Hj) as [Ed1 Ee1 Eb1 Eo1 Ec1].
  destruct (D2 j Hj) as [Ed2 Ee2 Eb2 Eo2 Ec2].
  unfold clipped_lower, clipped_upper, unclipped_upper, unclipped_lower in *.
  rewrite Ed1, Ee1, Eo1, Ec1, Eb1 in H.
  rewrite Ed2, Ee2, Eo2, Ec2, Eb2.
  apply (widen_cell _ _ p1 p2 _ _ (nth j cs 0%Z)); auto.
  assert (Hc : (0 <= nth j cube 0 < nth j cs 0)%Z).
  { apply (nth_of_Forall2 (fun x n => (0 <= x < n)%Z) 0%Z 0%Z); auto.
    rewrite (Forall2_length_eq _ _ _ Hcube). lia. }
  lia.
Qed.

(** Growing overlap in exact arithmetic (the rounding of binary64 is treated
    in the last part).  Two covers that differ only in [perc_overlap], the second one's
    being at least the first one's, are run on the same table (with a row
    and a lens column).  Both
    [define_bins] calls return the same coordinates, and for every two of
    them (adjacent ones included) every [find_entries] call succeeds, the
    rows returned for a coordinate under the smaller overlap are among those
    returned for it under the larger one (so there are at most as many), and
    the two coordinates have at most as many rows in common under the smaller
    overlap as under the larger one. *)
Theorem overlap_monotone (self1 self2 : Cover) (data : ndarray) :
  well_shaped data -> rows data <> [] -> (2 <= ncols data)%nat ->
  limits_match self1 data -> cubes_match self1 data ->
  n_cubes self1 = n_cubes self2 ->
  limits self1 = limits self2 ->
  perc_overlap self1 <= perc_overlap self2 ->
  exists self1' ws1 self2' ws2 coords,
    define_bins self1 data = (self1', ws1, Ok coords) /\
    define_bins self2 data = (self2', ws2, Ok coords) /\
    forall cube cube', In cube coords -> In cube' coords ->
      exists out1 out2 out1' out2',
        find_entries self1' data cube = Ok out1 /\
        find_entries self2' data cube = Ok out2 /\
        find_entries self1' data cube' = Ok out1' /\
        find_entries self2' data cube' = Ok out2' /\
        incl (rows out1) (rows out2) /\
        (length (rows out1) <= length (rows out2))%nat /\
        (length (common (rows out1) (rows out1'))
         <= length (common (rows out2) (rows out2')))%nat.
Proof.
  intros Hd Hne Hcols Hl1 Hc1 En El Hp.
  assert (Hl2 : limits_match self2 data).
  { unfold limits_match in *. now rewrite <- El. }
  assert (Hc2 : cubes_match self2 data).
  { unfold cubes_match in *. now rewrite <- En. }
  destruct (define_bins_total self1 data Hd Hne Hl1 Hc1) as (s1 & ws1 & H1).
  destruct (define_bins_total self2 data Hd Hne Hl2 Hc2) as (s2 & ws2 & H2).
  rewrite <- En in H2.
  exists s1, ws1, s2, ws2; eexists. split; [exact H1|]. split; [exact H2|].
  destruct (define_bins_geometry _ _ _ _ _ Hd Hl1 H1)
    as (g1 & lower & upper & lims1 & cs & Hb1 & Hcs1 & _ & Hg1 & Hs1 & D1).
  destruct (define_bins_geometry _ _ _ _ _ Hd Hl2 H2)
    as (g2 & lower2 & upper2 & lims2 & cs2 & Hb2 & Hcs2 & _ & Hg2 & Hs2 & D2).
  rewrite <- El, Hb1 in Hb2. inversion Hb2; subst lower2 upper2.
  rewrite <- En, Hcs1 in Hcs2. inversion Hcs2; subst cs2.
  rewrite (cubes_of_match self1 data Hc1) in Hcs1.
  inversion Hcs1 as [Ecs]. rewrite Ecs.
  assert (Lcs : length cs = (ncols data - 1)%nat).
  { rewrite <- Ecs. apply (cubes_length (n_cubes self1)).
    now apply cubes_of_match. }
  intros cube cube' Hin Hin'.
  apply in_coordinates in Hin, Hin'.
  assert (Lc : length cube = (ncols data - 1)%nat).
  { rewrite (Forall2_length_eq _ _ _ Hin). exact Lcs. }
  assert (Lc' : length cube' = (ncols data - 1)%nat).
  { rewrite (Forall2_length_eq _ _ _ Hin'). exact Lcs. }
  assert (W : forall c, Forall2 (fun x n => (0 <= x < n)%Z) c cs ->
                forall r, in_bin g1 c r = true -> in_bin g2 c r = true).
  { intros c Hc r.
    apply (in_bin_widens g1 g2 (perc_overlap self1) (perc_overlap self2)
             lower upper cs c (ncols data - 1)); auto.
    - now destruct Hs1.
    - now destruct Hs2. }
  exists (mk_ndarray (ncols data) (filter (in_bin g1 cube) (rows data))),
         (mk_ndarray (ncols data) (filter (in_bin g2 cube) (rows data))),
         (mk_ndarray (ncols data) (filter (in_bin g1 cube') (rows data))),
         (mk_ndarray (ncols data) (filter (in_bin g2 cube') (rows data))).
  repeat split.
  1-4: apply find_entries_filter with (k := (ncols data - 1)%nat); auto; lia.
  all: cbn [rows].
  - apply incl_filter_mono. intros r _. now apply W.
  - apply length_filter_mono. intros r _. now apply W.
  - apply common_mono; now apply W.
Qed.

Lemma overlap_monotone_witness :
  exists self1' ws1 self2' ws2 coords,
    define_bins cover_2_quarter table3 = (self1', ws1, Ok coords) /\
    define_bins cover_2_half table3 = (self2', ws2, Ok coords) /\
    forall cube cube', In cube coords -> In cube' coords ->
      exists out1 out2 out1' out2',
        find_entries self1' table3 cube = Ok out1 /\
        find_entries self2' table3 cube = Ok out2 /\
        find_entries self1' table3 cube' = Ok out1' /\
        find_entries self2' table3 cube' = Ok out2' /\
        incl (rows out1) (rows out2) /\
        (length (rows out1) <= length (rows out2))%nat /\
        (length (common (rows out1) (rows out1'))
         <= length (common (rows out2) (rows out2')))%nat.
Proof.
  apply (overlap_monotone cover_2_quarter cover_2_half table3).
  - exact table3_well_shaped.
  - discriminate.
  - simpl. lia.
  - exact I.
  - exact I.
  - reflexivity.
  - reflexivity.
  - vm_compute. discriminate.
Defined.

(** ** A single cube per dimension *)

Lemma all_map2_nth (f : Q -> Q -> bool) (xs ys : list Q) (k j : nat) :
  length xs = k -> length ys = k -> (j < k)%nat ->
  all (map2 f xs ys) = true -> f (nth j xs 0) (nth j ys 0) = true.
Proof.
  intros Hx Hy Hj H.
  rewrite (as_table 0 xs k Hx), (as_table 0 ys k Hy) in H.
  rewrite map2_map_same, all_map_true in H.
  now apply (proj1 (forallb_seq_iff _ k) H).
Qed.

Lemma product_single (k : nat) :
  product (map range (repeat 1%Z k)) = [repeat 0%Z k].
Proof.
  induction k as [|k IH]; simpl; [reflexivity|]. now rewrite IH.
Qed.

Lemma filter_all_true {A : Type} (f : A -> bool) (l : list A) :
  (forall a, In a l -> f a = true) -> filter f l = l.
Proof.
  induction l as [|a l IH]; intros H; simpl; [reflexivity|].
  rewrite (H a (or_introl eq_refl)). f_equal. apply IH.
  intros b Hb. apply H. now right.
Qed.

(** A single cube in exact arithmetic (the rounding of binary64 is treated
    in the last part).  With one cube per dimension ([n_cubes=1]), a
    non-negative overlap fraction, at least one lens column and bounds that
    enclose the table's lens coordinates, [define_bins] returns the all-zeros coordinate alone and
    [find_entries] on it returns the whole table. *)
Theorem single_cube_whole_table (self : Cover) (data : ndarray) :
  well_shaped data ->
  (2 <= ncols data)%nat ->
  limits_match self data ->
  n_cubes self = PyInt 1 ->
  0 <= perc_overlap self ->
  bounds_enclose (limits self) data = true ->
  exists self' ws,
    define_bins self data
    = (self', ws, Ok [repeat 0%Z (ncols data - 1)]) /\
    find_entries self' data (repeat 0%Z (ncols data - 1)) = Ok data.
Proof.
  intros Hd Hcols Hl Hn Hp Henc.
  assert (Hne : rows data <> []).
  { intros E. unfold bounds_enclose in Henc. rewrite E in Henc.
    destruct (limits self); discriminate. }
  assert (Hc : cubes_match self data).
  { unfold cubes_match. now rewrite Hn. }
  destruct (define_bins_total self data Hd Hne Hl Hc) as (self' & ws & H).
  destruct (define_bins_geometry _ _ _ _ _ Hd Hl H)
    as (g & lower & upper & lims' & cs & Hb & Hcs & _ & Hg & Hs & Hdim).
  rewrite Hn in H, Hcs. cbn [cubes_of cubes] in H, Hcs.
  inversion Hcs; subst cs. clear Hcs.
  rewrite product_single in H.
  exists self', ws. split; [exact H|].
  set (k := (ncols data - 1)%nat) in *.
  assert (Hk : (1 <= k)%nat) by (unfold k; lia).
  rewrite (find_entries_filter self' g data (repeat 0%Z k) k Hg Hs Hk eq_refl)
    by apply repeat_length.
  destruct data as [nc rs]. cbn [ncols rows] in *. do 2 f_equal.
  apply filter_all_true. intros r Hr.
  apply in_bin_iff. rewrite (shaped_nr _ _ Hs). intros j Hj.
  destruct (Hdim j Hj) as [Ed Ee Ebase Eo Ech].
  unfold clipped_lower, clipped_upper, unclipped_upper, unclipped_lower.
  rewrite Ed, Ee, Eo, Ech, Ebase.
  rewrite nth_repeat. rewrite (nth_indep _ 0%Z 1%Z) by (rewrite repeat_length; lia).
  rewrite nth_repeat.
  destruct (resolve_bounds_shape _ _ _ _ _ _ _
              (indexless_shape (mk_ndarray nc rs) Hd) Hl Hb) as [Llo Lhi].
  cbn [ncols] in Llo, Lhi. fold k in Llo, Lhi.
  assert (Hx : nth j lower 0 <= lens r j /\ lens r j <= nth j upper 0).
  { unfold bounds_enclose in Henc. cbn [rows] in Henc. rewrite Hb in Henc.
    rewrite forallb_forall in Henc. specialize (Henc r Hr).
    apply andb_true_iff in Henc. destruct Henc as [H1 H2].
    assert (Lr : length (tl r) = k).
    { pose proof (indexless_shape (mk_ndarray nc rs) Hd) as F.
      rewrite Forall_forall in F. apply F. cbn [rows]. now apply in_map. }
    apply (all_map2_nth Qle_bool lower (tl r) k j Llo Lr Hj) in H1.
    apply (all_map2_nth Qle_bool (tl r) upper k j Lr Lhi Hj) in H2.
    rewrite nth_tl in H1, H2. now rewrite !Qle_bool_iff in H1, H2. }
  destruct Hx as [Hx1 Hx2].
  destruct (covering_cell (nth j lower 0) (nth j upper 0) (lens r j)
              (perc_overlap self) 1 Hx1 Hx2 Hp) as (i & Hi & Hin); [lia|].
  assert (i = 0%Z) by lia. subst i. exact Hin.
Qed.

Lemma single_cube_whole_table_witness :
  exists self' ws,
    define_bins (cover_1 None) table3
    = (self', ws, Ok [repeat 0%Z (3 - 1)]) /\
    find_entries self' table3 (repeat 0%Z (3 - 1)) = Ok table3.
Proof.
  apply (single_cube_whole_table (cover_1 None) table3).
  - exact table3_well_shaped.
  - simpl. lia.
  - exact I.
  - reflexivity.
  - vm_compute. discriminate.
  - vm_compute. reflexivity.
Defined.

(** Explicit limits narrower than the data leave rows out of the single
    bin, also in exact arithmetic: with [limits=[[1, 3]]] and lens values 0, 2 and 4 the only coordinate is
    [(0)], and its bin holds the middle row alone. *)
Lemma single_cube_counterexample :
  let self := cover_1 (Some [(fin 1, fin 3)]) in
  snd (define_bins self table_0_2_4) = Ok [[0%Z]] /\
  find_entries (run_define_bins self table_0_2_4) table_0_2_4 [0%Z]
  = Ok (mk_ndarray 2 [[1; 2]]) /\
  find_entries (run_define_bins self table_0_2_4) table_0_2_4 [0%Z]
  <> Ok table_0_2_4.
Proof.
  cbv zeta. split; [vm_compute; reflexivity|].
  split; [vm_compute; reflexivity|].
  vm_compute. discriminate.
Qed.

(** ** Repeated calls of define_bins *)

Lemma zero_inf_fixed (l : list (limit * limit)) :
  Forall (fun lu => is_inf (fst lu) = false /\ is_inf (snd lu) = false) l ->
  map (fun lu => (zero_inf (fst lu), zero_inf (snd lu))) l = l.
Proof.
  induction 1 as [|[lo hi] l [H1 H2] Hl IH]; simpl; [reflexivity|].
  rewrite IH. simpl in H1, H2.
  destruct lo, hi; simpl in *; try discriminate. reflexivity.
Qed.

Lemma resolve_bounds_keeps_limits (lims lims' : option (list (limit * limit)))
  (a : list (list Q)) (lower upper : list Q) (ws : list warning) :
  no_inf lims ->
  resolve_bounds lims a = Ok (lower, upper, lims', ws) -> lims' = lims.
Proof.
  intros Hn H. unfold resolve_bounds in H. destruct lims as [l|].
  - destruct (np_min a); [|discriminate]. cbn [bind] in H.
    destruct (assign_column _ _); [|discriminate]. cbn [bind] in H.
    destruct (np_max a); [|discriminate]. cbn [bind] in H.
    destruct (assign_column _ _); [|discriminate]. cbn [bind] in H.
    destruct (broadcast _ _ _); [|discriminate]. cbn [bind] in H.
    destruct (broadcast _ _ _); [|discriminate]. cbn [bind] in H.
    inversion H. now rewrite zero_inf_fixed.
  - destruct (np_min a); [|discriminate]. cbn [bind] in H.
    destruct (np_max a); [|discriminate]. cbn [bind] in H.
    now inversion H.
Qed.

(** Without an unbounded marker in [limits], a second successful call on the
    same table leaves the object, the warnings and the coordinates as the
    first call did. *)
Lemma define_bins_repeatable (self self' : Cover) (data : ndarray)
  (ws : list warning) (coords : list (list Z)) :
  no_inf (limits self) ->
  define_bins self data = (self', ws, Ok coords) ->
  define_bins self' data = (self', ws, Ok coords).
Proof.
  intros Hn H.
  destruct (define_bins_inv _ _ _ _ _ H)
    as (lower & upper & lims' & base & cs & Hb & Hdiv & Hcs & -> & ->).
  pose proof (resolve_bounds_keeps_limits _ _ _ _ _ _ Hn Hb) as ->.
  unfold define_bins. cbn [limits n_cubes perc_overlap].
  rewrite Hb, Hdiv. cbn [nr_dimensions]. rewrite length_seq, Hcs.
  reflexivity.
Qed.

(** C4 at [Cover(n_cubes=1, perc_overlap=0.5, limits=[[inf, inf]])] and lens
    values 1 and 3.  The first call derives the bounds [1, 3] from the data
    and overwrites both markers in [self.limits] by 0; the second call on the
    same table then takes the bounds [0, 0].  The coordinates agree, the
    geometry does not. *)
Theorem define_bins_twice_unbounded :
  let once := run_define_bins cover_unbounded table_1_3 in
  let twice := run_define_bins once table_1_3 in
  limits once = Some [(fin 0, fin 0)] /\
  option_map d (geometry once) = Some [1] /\
  option_map end_ (geometry once) = Some [3] /\
  option_map base_dist (geometry once) = Some [2] /\
  option_map d (geometry twice) = Some [0] /\
  option_map end_ (geometry twice) = Some [0] /\
  option_map base_dist (geometry twice) = Some [0] /\
  snd (define_bins cover_unbounded table_1_3) = Ok [[0%Z]] /\
  snd (define_bins once table_1_3) = Ok [[0%Z]] /\
  geometry twice <> geometry once.
Proof.
  cbv zeta. repeat split; try (vm_compute; reflexivity).
  vm_compute. discriminate.
Qed.

(** ** The bounds-coverage warning *)

(** C6 at [limits=[[0.5, 10]]] and lens values 0 and 1.  The configured
    lower bound 0.5 lies above the data minimum 0, so the bounds do not
    enclose the data; the upper bound 10 lies above the maximum, the
    disjunction of line 126-127 holds, and no warning is emitted.  The
    computation proceeds with the configured bounds. *)
Theorem limits_warning_missed :
  let self := cover_limits [(fin (1 # 2), fin 10)] in
  bounds_enclose (limits self) table_0_1 = false /\
  snd (fst (define_bins self table_0_1)) = [] /\
  option_map d (geometry (run_define_bins self table_0_1)) = Some [1 # 2] /\
  option_map end_ (geometry (run_define_bins self table_0_1)) = Some [10].
Proof. cbv zeta. repeat split; vm_compute; reflexivity. Qed.

(** When both ends are too narrow the warning is emitted, and the
    configured bounds are used all the same. *)
Example limits_warning_emitted :
  let self := cover_limits [(fin (1 # 2), fin (3 # 4))] in
  snd (fst (define_bins self table_0_1))
  = [LimitsWarning [0] [1 # 2] [1] [3 # 4]] /\
  option_map d (geometry (run_define_bins self table_0_1)) = Some [1 # 2] /\
  option_map end_ (geometry (run_define_bins self table_0_1))
  = Some [3 # 4].
Proof. cbv zeta. repeat split; vm_compute; reflexivity. Qed.

(** ** A per-dimension n_cubes of the wrong length *)

(** Whatever else happens, [define_bins] returns no coordinates when the
    list [n_cubes] does not have one entry per dimension. *)
Lemma define_bins_mismatch_raises (self : Cover) (data : ndarray)
  (l : list Z) :
  n_cubes self = PyList l ->
  length l <> (ncols data - 1)%nat ->
  exists self' ws e, define_bins self data = (self', ws, Raise e).
Proof.
  intros Hn Hlen. unfold define_bins.
  destruct (resolve_bounds _ _) as [[[[lower upper] lims'] ws]|e]; [|eauto].
  destruct (divide _ _) as [base|e]; [|eauto].
  cbn [nr_dimensions]. rewrite length_seq, Hn. cbn [cubes].
  destruct (Nat.eqb_spec (length l) (ncols data - 1)); [contradiction|].
  eauto.
Qed.

(** C8 at [n_cubes=[2, 3, 4]] on a table with two lens dimensions.  The
    division of line 141 cannot broadcast two widths against three counts
    and raises NumPy's [ValueError]; the assertion of lines 163-167, whose
    message names both lengths, is never reached.  At [n_cubes=[5]] the
    division does broadcast, the geometry attributes are written, and only
    then the assertion fails. *)
Theorem define_bins_length_mismatch :
  define_bins (cover_list [2; 3; 4]%Z) table3
  = (cover_list [2; 3; 4]%Z, [], Raise (ValueError_broadcast 2 3)) /\
  snd (define_bins (cover_list [5]%Z) table3)
  = Raise (AssertionError_dims 1 2) /\
  geometry (cover_list [5]%Z) = None /\
  option_map d (geometry (run_define_bins (cover_list [5]%Z) table3))
  = Some [0; 0] /\
  option_map end_ (geometry (run_define_bins (cover_list [5]%Z) table3))
  = Some [4; 4].
Proof. repeat split; vm_compute; reflexivity. Qed.

(** ** Legacy parameter names *)

(** A legacy value that Python counts as true is the one stored, and the
    deprecation warning is emitted. *)
Lemma init_legacy_truthy (n : cubes_arg) (p : Q)
  (lims : option (list (limit * limit))) (nr : cubes_arg) (op : Q) :
  truthy_cubes nr = true -> truthy_float op = true ->
  n_cubes (fst (__init__ n p lims (Some nr) None)) = nr /\
  snd (__init__ n p lims (Some nr) None) = [DeprecationWarning] /\
  perc_overlap (fst (__init__ n p lims None (Some op))) = op /\
  snd (__init__ n p lims None (Some op)) = [DeprecationWarning].
Proof.
  intros Hn Hp. unfold __init__. cbn. rewrite Hn, Hp. auto.
Qed.

(** C9 at [Cover(overlap_perc=0.0)] and [Cover(nr_cubes=0)].  The
    deprecation warning is emitted (the value is not [None]), but the value
    is false for Python, and the canonical argument, here its default, is
    stored in its place. *)
Theorem init_legacy_zero :
  __init__ default_n_cubes default_perc_overlap None None (Some 0)
  = (mk_Cover (PyInt 10) (2 # 10) None None, [DeprecationWarning]) /\
  __init__ default_n_cubes default_perc_overlap None (Some (PyInt 0)) None
  = (mk_Cover (PyInt 10) (2 # 10) None None, [DeprecationWarning]).
Proof. split; reflexivity. Qed.

(** ** find_entries before define_bins *)

Lemma bind_not_attribute_error {A B : Type} (r : result A)
  (k : A -> result B) :
  r <> Raise AttributeError ->
  (forall a, k a <> Raise AttributeError) ->
  bind r k <> Raise AttributeError.
Proof.
  intros Hr Hk. destruct r as [a|e]; simpl; [apply Hk|].
  intros E. apply Hr. inversion E. reflexivity.
Qed.

Lemma broadcast_not_attribute_error {A B C : Type} (f : A -> B -> C)
  (xs : list A) (ys : list B) :
  broadcast f xs ys <> Raise AttributeError.
Proof. unfold broadcast. destruct (broadcastable _ _); discriminate. Qed.

Lemma find_entries_attribute_error (self : Cover) (data : ndarray)
  (cube : list Z) :
  find_entries self data cube = Raise AttributeError <->
  geometry self = None.
Proof.
  unfold find_entries. split.
  - destruct (geometry self) as [g|]; [|reflexivity].
    intros H. exfalso. revert H.
    repeat (apply bind_not_attribute_error;
            [ first [ apply broadcast_not_attribute_error
                    | unfold np_clip; apply bind_not_attribute_error;
                      [apply broadcast_not_attribute_error
                      | intros; apply broadcast_not_attribute_error]
                    | unfold take_columns; destruct (di g);
                      [|destruct (forallb _ _)]; discriminate
                    | unfold broadcast_rows;
                      destruct (broadcastable _ _); discriminate ]
            | intros ]).
    discriminate.
  - intros ->. reflexivity.
Qed.

(** C10.  [__init__] writes none of the geometry attributes, and
    [find_entries] on the object it returns raises [AttributeError]
    whatever the table and the coordinate.  More generally [find_entries]
    raises [AttributeError] exactly on an object without the geometry,
    and every [define_bins] call that returns coordinates has written it. *)
Theorem find_entries_fresh_cover (n : cubes_arg) (p : Q)
  (lims : option (list (limit * limit))) (nr : option cubes_arg)
  (op : option Q) (data : ndarray) (cube : list Z) :
  geometry (fst (__init__ n p lims nr op)) = None /\
  find_entries (fst (__init__ n p lims nr op)) data cube
  = Raise AttributeError /\
  (forall self data' cube',
     find_entries self data' cube' = Raise AttributeError <->
     geometry self = None) /\
  (forall self data' self' ws coords,
     define_bins self data' = (self', ws, Ok coords) ->
     geometry self' <> None).
Proof.
  split; [reflexivity|]. split; [reflexivity|]. split.
  - intros. apply find_entries_attribute_error.
  - intros self data' self' ws coords H.
    destruct (define_bins_inv _ _ _ _ _ H)
      as (lower & upper & lims' & base & cs & _ & _ & _ & -> & _).
    discriminate.
Qed.

(** * Further properties of the code *)

(** ** define_bins: failures *)

(** X1.  On a table without rows [define_bins] raises NumPy's zero-size
    reduction error (line 115 or 138), whatever the configuration, emits no
    warning and leaves the object as it was. *)
Theorem define_bins_empty_table (self : Cover) (data : ndarray) :
  rows data = [] ->
  define_bins self data = (self, [], Raise ValueError_zero_size).
Proof.
  intros E. unfold define_bins. rewrite E. cbn [map].
  destruct (limits self); reflexivity.
Qed.

Lemma define_bins_empty_table_witness :
  define_bins cover_2_half empty_table
  = (cover_2_half, [], Raise ValueError_zero_size).
Proof. apply (define_bins_empty_table cover_2_half empty_table). reflexivity. Defined.

(** X2.  A list [n_cubes] whose length is not the dimension count, on a
    table with rows.  When NumPy can broadcast the widths against the list
    (one of the two lengths is 1) the geometry attributes are written and
    the assertion of line 163 fails; otherwise line 141 raises the broadcast
    error and the geometry attributes are left as they were. *)
Theorem define_bins_list_mismatch (self : Cover) (data : ndarray)
  (l : list Z) :
  well_shaped data -> rows data <> [] -> limits_match self data ->
  n_cubes self = PyList l ->
  length l <> (ncols data - 1)%nat ->
  exists self' ws,
    if broadcastable (ncols data - 1) (length l)
    then define_bins self data
         = (self', ws, Raise (AssertionError_dims (length l) (ncols data - 1)))
         /\ geometry self' <> None
    else define_bins self data
         = (self', ws, Raise (ValueError_broadcast (ncols data - 1) (length l)))
         /\ geometry self' = geometry self.
Proof.
  intros Hd Hne Hl Hn Hlen.
  assert (Hne' : map (@tl Q) (rows data) <> []).
  { destruct (rows data); [congruence | discriminate]. }
  destruct (resolve_bounds_total (limits self) _ _ Hne'
              (indexless_shape data Hd) Hl)
    as (lower & upper & lims' & ws & Hb).
  destruct (resolve_bounds_shape _ _ _ _ _ _ _ (indexless_shape data Hd) Hl Hb)
    as [Llo Lhi].
  unfold define_bins. rewrite Hb, Hn. cbn [divide].
  unfold broadcast. rewrite length_map.
  rewrite bc_same_length by congruence. rewrite length_map2, Llo, Lhi.
  rewrite Nat.min_id.
  destruct (broadcastable (ncols data - 1) (length l)).
  - cbn [nr_dimensions cubes]. rewrite length_seq.
    destruct (Nat.eqb_spec (length l) (ncols data - 1)); [contradiction|].
    do 2 eexists. split; [reflexivity|]. discriminate.
  - do 2 eexists. split; reflexivity.
Qed.

Lemma define_bins_list_mismatch_witness :
  exists self' ws,
    if broadcastable (3 - 1) (length [2; 3; 4]%Z)
    then define_bins (cover_list [2; 3; 4]%Z) table3
         = (self', ws, Raise (AssertionError_dims (length [2; 3; 4]%Z) (3 - 1)))
         /\ geometry self' <> None
    else define_bins (cover_list [2; 3; 4]%Z) table3
         = (self', ws, Raise (ValueError_broadcast (3 - 1) (length [2; 3; 4]%Z)))
         /\ geometry self' = geometry (cover_list [2; 3; 4]%Z).
Proof.
  apply (define_bins_list_mismatch (cover_list [2; 3; 4]%Z) table3 [2; 3; 4]%Z).
  - exact table3_well_shaped.
  - discriminate.
  - exact I.
  - reflexivity.
  - simpl. lia.
Defined.

(** ** define_bins: the coordinate list *)

Lemma cubes_is_cubes_of (n : cubes_arg) (k : nat) (cs : list Z) :
  cubes n k = Ok cs -> cs = cubes_of n k.
Proof.
  destruct n as [n|l]; simpl.
  - intros H; now inversion H.
  - destruct (Nat.eqb (length l) k); intros H; now inversion H.
Qed.

(** X3.  The coordinates depend on [n_cubes] and on the number of columns
    only: two successful calls with the same [n_cubes], on tables of the same
    width, return the same list, whatever the overlap, the limits and the
    values in the tables. *)
Theorem coordinates_ignore_values (self1 self2 self1' self2' : Cover)
  (data1 data2 : ndarray) (ws1 ws2 : list warning)
  (coords1 coords2 : list (list Z)) :
  n_cubes self1 = n_cubes self2 ->
  ncols data1 = ncols data2 ->
  define_bins self1 data1 = (self1', ws1, Ok coords1) ->
  define_bins self2 data2 = (self2', ws2, Ok coords2) ->
  coords1 = coords2.
Proof.
  intros En Ec H1 H2.
  destruct (define_bins_inv _ _ _ _ _ H1)
    as (? & ? & ? & ? & cs1 & _ & _ & Hcs1 & _ & ->).
  destruct (define_bins_inv _ _ _ _ _ H2)
    as (? & ? & ? & ? & cs2 & _ & _ & Hcs2 & _ & ->).
  rewrite En, Ec, Hcs2 in Hcs1. now inversion Hcs1.
Qed.

Lemma coordinates_ignore_values_witness :
  product [range 2; range 2] = product [range 2; range 2].
Proof.
  apply (coordinates_ignore_values cover_2_half cover_2_quarter
           (run_define_bins cover_2_half table3)
           (run_define_bins cover_2_quarter table3_other)
           table3 table3_other [] []).
  - reflexivity.
  - reflexivity.
  - vm_compute. reflexivity.
  - vm_compute. reflexivity.
Defined.

Lemma product_nil_iff {A : Type} (pools : list (list A)) :
  product pools = [] <-> Exists (fun pool => pool = []) pools.
Proof.
  induction pools as [|pool rest IH]; simpl.
  - split; [discriminate | intros H; inversion H].
  - split.
    + intros H. destruct pool as [|x pool]; [now left|]. right. apply IH.
      simpl in H. apply app_eq_nil in H. destruct H as [H _].
      now apply map_eq_nil in H.
    + intros H. inversion H as [? ? E|? ? E]; subst.
      * reflexivity.
      * apply IH in E. rewrite E. clear.
        induction pool; simpl; auto.
Qed.

Lemma range_nil_iff (n : Z) : range n = [] <-> (n <= 0)%Z.
Proof.
  unfold range. split.
  - intros H. apply map_eq_nil in H.
    destruct (Z.to_nat n) eqn:E; [lia | discriminate].
  - intros H. replace (Z.to_nat n) with 0%nat by lia. reflexivity.
Qed.

Lemma range_positive (n : Z) :
  (1 <= n)%Z -> exists t, range n = 0%Z :: t.
Proof.
  intros H. unfold range. destruct (Z.to_nat n) eqn:E; [lia|].
  simpl. eauto.
Qed.

Lemma product_first (cs : list Z) :
  Forall (fun n => (1 <= n)%Z) cs ->
  exists t, product (map range cs) = repeat 0%Z (length cs) :: t.
Proof.
  induction 1 as [|n cs Hn Hcs IH]; simpl; [eauto|].
  destruct IH as (t & ->). destruct (range_positive n Hn) as (t' & ->).
  simpl. eauto.
Qed.

(** X4.  A successful [define_bins] returns the empty list exactly when some
    dimension has a count of zero or less; when every count is at least one
    the first coordinate is the origin (all zeros). *)
Theorem coordinates_empty_or_origin (self self' : Cover) (data : ndarray)
  (ws : list warning) (coords : list (list Z)) :
  define_bins self data = (self', ws, Ok coords) ->
  (coords = [] <->
   Exists (fun n => (n <= 0)%Z) (cubes_of (n_cubes self) (ncols data - 1)))
  /\
  (Forall (fun n => (1 <= n)%Z) (cubes_of (n_cubes self) (ncols data - 1)) ->
   hd_error coords = Some (repeat 0%Z (ncols data - 1))).
Proof.
  intros H.
  destruct (define_bins_inv _ _ _ _ _ H)
    as (? & ? & ? & ? & cs & _ & _ & Hcs & _ & ->).
  pose proof (cubes_length _ _ _ Hcs) as Lcs.
  apply cubes_is_cubes_of in Hcs. rewrite <- Hcs. split.
  - rewrite product_nil_iff, Exists_map.
    split; intros E; eapply Exists_impl; try exact E;
      intros n; apply range_nil_iff.
  - intros Hpos. destruct (product_first cs Hpos) as (t & ->).
    now rewrite Lcs.
Qed.

Lemma coordinates_empty_or_origin_witness :
  (product (map range [2; 3]%Z) = [] <->
   Exists (fun n => (n <= 0)%Z) (cubes_of (n_cubes cover_list_2_3) (3 - 1)))
  /\
  (Forall (fun n => (1 <= n)%Z) (cubes_of (n_cubes cover_list_2_3) (3 - 1)) ->
   hd_error (product (map range [2; 3]%Z)) = Some (repeat 0%Z (3 - 1))).
Proof.
  apply (coordinates_empty_or_origin cover_list_2_3
           (run_define_bins cover_list_2_3 table3) table3 []).
  vm_compute. reflexivity.
Defined.

Lemma fold_mul_repeat (n : Z) (k : nat) :
  fold_right Z.mul 1%Z (repeat n k) = (n ^ Z.of_nat k)%Z.
Proof.
  induction k as [|k IH]; [reflexivity|].
  cbn [repeat fold_right]. rewrite IH, Nat2Z.inj_succ, Z.pow_succ_r by lia.
  reflexivity.
Qed.

(** X5.  With a single count [n >= 0] for all dimensions, a successful
    [define_bins] returns [n ^ d] coordinates for [d] lens columns (the
    docstring's 4 cubes on 3 dimensions give 64). *)
Theorem coordinates_count_power (self self' : Cover) (data : ndarray)
  (ws : list warning) (coords : list (list Z)) (n : Z) :
  n_cubes self = PyInt n -> (0 <= n)%Z ->
  define_bins self data = (self', ws, Ok coords) ->
  Z.of_nat (length coords) = (n ^ Z.of_nat (ncols data - 1))%Z.
Proof.
  intros Hn Hpos H.
  destruct (define_bins_inv _ _ _ _ _ H)
    as (? & ? & ? & ? & cs & _ & _ & Hcs & _ & ->).
  apply cubes_is_cubes_of in Hcs. rewrite Hn in Hcs. cbn in Hcs. subst cs.
  rewrite product_of_counts.
  - apply fold_mul_repeat.
  - clear -Hpos. induction (ncols data - 1)%nat; simpl; constructor; auto.
Qed.

Lemma coordinates_count_power_witness :
  Z.of_nat (length (product [range 2; range 2])) = (2 ^ Z.of_nat (3 - 1))%Z.
Proof.
  apply (coordinates_count_power cover_2_half
           (run_define_bins cover_2_half table3) table3 []).
  - reflexivity.
  - lia.
  - vm_compute. reflexivity.
Defined.

(** ** define_bins: repeated calls and the limits it leaves behind *)

Lemma zero_inf_no_inf (l : list (limit * limit)) :
  no_inf (Some (map (fun lu => (zero_inf (fst lu), zero_inf (snd lu))) l)).
Proof.
  simpl. apply Forall_map. apply Forall_forall. intros [lo hi] _.
  destruct lo, hi; simpl; auto.
Qed.

Lemma resolve_bounds_limits_after (lims lims' : option (list (limit * limit)))
  (a : list (list Q)) (lower upper : list Q) (ws : list warning) :
  resolve_bounds lims a = Ok (lower, upper, lims', ws) ->
  lims' = option_map
            (map (fun lu => (zero_inf (fst lu), zero_inf (snd lu)))) lims.
Proof.
  intros H. unfold resolve_bounds in H. destruct lims as [l|].
  - destruct (np_min a); [|discriminate]. cbn [bind] in H.
    destruct (assign_column _ _); [|discriminate]. cbn [bind] in H.
    destruct (np_max a); [|discriminate]. cbn [bind] in H.
    destruct (assign_column _ _); [|discriminate]. cbn [bind] in H.
    destruct (broadcast _ _ _); [|discriminate]. cbn [bind] in H.
    destruct (broadcast _ _ _); [|discriminate]. cbn [bind] in H.
    now inversion H.
  - destruct (np_min a); [|discriminate]. cbn [bind] in H.
    destruct (np_max a); [|discriminate]. cbn [bind] in H.
    now inversion H.
Qed.

(** X6.  What a successful [define_bins] does to [self.limits], and what
    that means for later calls: every unbounded marker is overwritten by 0
    and every other entry is kept, so the object holds no marker afterwards;
    from then on a successful call on a table, repeated on that table,
    returns the same coordinates and warnings and leaves the object
    unchanged.  The first call itself is repeatable in this sense when the
    configured limits hold no marker. *)
Theorem define_bins_limits_settle (self self1 : Cover) (data : ndarray)
  (ws1 : list warning) (coords1 : list (list Z)) :
  define_bins self data = (self1, ws1, Ok coords1) ->
  limits self1
  = option_map (map (fun lu => (zero_inf (fst lu), zero_inf (snd lu))))
      (limits self) /\
  no_inf (limits self1) /\
  (no_inf (limits self) ->
   define_bins self1 data = (self1, ws1, Ok coords1)) /\
  (forall data' self2 ws2 coords2,
     define_bins self1 data' = (self2, ws2, Ok coords2) ->
     define_bins self2 data' = (self2, ws2, Ok coords2)).
Proof.
  intros H.
  destruct (define_bins_inv _ _ _ _ _ H)
    as (lower & upper & lims' & base & cs & Hb & _ & _ & E & _).
  pose proof (resolve_bounds_limits_after _ _ _ _ _ _ Hb) as El.
  assert (Hlim : limits self1 = lims') by (rewrite E; reflexivity).
  assert (Hno : no_inf (limits self1)).
  { rewrite Hlim, El. destruct (limits self) as [l|]; [|exact I].
    apply zero_inf_no_inf. }
  split; [congruence|]. split; [exact Hno|]. split.
  - intros Hn. now apply (define_bins_repeatable self).
  - intros data' self2 ws2 coords2 H2.
    now apply (define_bins_repeatable self1).
Qed.

Lemma define_bins_limits_settle_witness :
  limits (run_define_bins cover_unbounded table_1_3)
  = option_map (map (fun lu => (zero_inf (fst lu), zero_inf (snd lu))))
      (limits cover_unbounded) /\
  no_inf (limits (run_define_bins cover_unbounded table_1_3)) /\
  (no_inf (limits cover_unbounded) ->
   define_bins (run_define_bins cover_unbounded table_1_3) table_1_3
   = (run_define_bins cover_unbounded table_1_3, [], Ok [[0%Z]])) /\
  (forall data' self2 ws2 coords2,
     define_bins (run_define_bins cover_unbounded table_1_3) data'
     = (self2, ws2, Ok coords2) ->
     define_bins self2 data' = (self2, ws2, Ok coords2)).
Proof.
  apply (define_bins_limits_settle cover_unbounded
           (run_define_bins cover_unbounded table_1_3) table_1_3 [] [[0%Z]]).
  vm_compute. reflexivity.
Defined.

(** ** define_bins: the bounds *)

Lemma fold_min_attained (rs : list (list Q)) (acc : list Q) (k j : nat) :
  length acc = k -> Forall (fun r => length r = k) rs -> (j < k)%nat ->
  exists r, In r (acc :: rs) /\
            nth j r 0 == nth j (fold_left (map2 Qmin) rs acc) 0.
Proof.
  revert acc; induction rs as [|r rs IH]; intros acc Hacc Hrs Hj; simpl.
  - exists acc. split; [now left | reflexivity].
  - inversion Hrs as [|? ? Hr Hrs']; subst.
    destruct (IH (map2 Qmin acc r)) as (r' & Hin & E); auto.
    { rewrite length_map2. lia. }
    destruct Hin as [<-|Hin].
    + rewrite (nth_map2 Qmin 0 0 0) in E by lia.
      destruct (Q.min_dec (nth j acc 0) (nth j r 0)) as [Em|Em].
      * exists acc. split; [now left|]. now rewrite <- E, Em.
      * exists r. split; [right; now left|]. now rewrite <- E, Em.
    + exists r'. split; [right; now right | exact E].
Qed.

Lemma fold_max_attained (rs : list (list Q)) (acc : list Q) (k j : nat) :
  length acc = k -> Forall (fun r => length r = k) rs -> (j < k)%nat ->
  exists r, In r (acc :: rs) /\
            nth j r 0 == nth j (fold_left (map2 Qmax) rs acc) 0.
Proof.
  revert acc; induction rs as [|r rs IH]; intros acc Hacc Hrs Hj; simpl.
  - exists acc. split; [now left | reflexivity].
  - inversion Hrs as [|? ? Hr Hrs']; subst.
    destruct (IH (map2 Qmax acc r)) as (r' & Hin & E); auto.
    { rewrite length_map2. lia. }
    destruct Hin as [<-|Hin].
    + rewrite (nth_map2 Qmax 0 0 0) in E by lia.
      destruct (Q.max_dec (nth j acc 0) (nth j r 0)) as [Em|Em].
      * exists acc. split; [now left|]. now rewrite <- E, Em.
      * exists r. split; [right; now left|]. now rewrite <- E, Em.
    + exists r'. split; [right; now right | exact E].
Qed.

(** The arrays computed by [np.min] and [np.max] hold the column minima
    and maxima of the table. *)
Lemma column_extrema (data : ndarray) :
  well_shaped data -> rows data <> [] ->
  exists mins maxs,
    np_min (map (@tl Q) (rows data)) = Ok mins /\
    np_max (map (@tl Q) (rows data)) = Ok maxs /\
    length mins = (ncols data - 1)%nat /\
    length maxs = (ncols data - 1)%nat /\
    forall j, (j < ncols data - 1)%nat ->
      column_min data j (nth j mins 0) /\ column_max data j (nth j maxs 0).
Proof.
  intros Hd Hne. unfold column_min, column_max.
  pose proof (indexless_shape data Hd) as Hs.
  destruct (rows data) as [|r0 rs] eqn:Er; [congruence|].
  cbn [map] in *. inversion Hs as [|? ? H0 Hrs]; subst.
  exists (fold_left (map2 Qmin) (map (@tl Q) rs) (tl r0)),
         (fold_left (map2 Qmax) (map (@tl Q) rs) (tl r0)).
  split; [reflexivity|]. split; [reflexivity|].
  split; [now apply fold_map2_length|]. split; [now apply fold_map2_length|].
  intros j Hj.
  destruct (fold_min_le _ _ _ j H0 Hrs Hj) as [m1 m2].
  destruct (fold_max_ge _ _ _ j H0 Hrs Hj) as [M1 M2].
  destruct (fold_min_attained _ _ _ j H0 Hrs Hj) as (rm & Hrm & Em).
  destruct (fold_max_attained _ _ _ j H0 Hrs Hj) as (rM & HrM & EM).
  assert (back : forall t, In t (tl r0 :: map (@tl Q) rs) ->
                 exists r, In r (r0 :: rs) /\ t = tl r).
  { intros t [<-|Ht]; [exists r0; split; [now left | reflexivity]|].
    apply in_map_iff in Ht. destruct Ht as (r & <- & Hr).
    exists r. split; [now right | reflexivity]. }
  split; split.
  - intros r [<-|Hr]; rewrite <- nth_tl; [exact m1|].
    apply m2. now apply in_map.
  - destruct (back rm Hrm) as (r & Hr & ->). exists r.
    split; [exact Hr|]. now rewrite <- nth_tl.
  - intros r [<-|Hr]; rewrite <- nth_tl; [exact M1|].
    apply M2. now apply in_map.
  - destruct (back rM HrM) as (r & Hr & ->). exists r.
    split; [exact Hr|]. now rewrite <- nth_tl.
Qed.

Lemma column_min_eq (data : ndarray) (j : nat) (m m' : Q) :
  m == m' -> column_min data j m -> column_min data j m'.
Proof.
  intros E [H1 (r & Hr & H2)]. split.
  - intros r' Hr'. rewrite <- E. now apply H1.
  - exists r. split; [exact Hr|]. now rewrite H2.
Qed.

Lemma column_max_eq (data : ndarray) (j : nat) (m m' : Q) :
  m == m' -> column_max data j m -> column_max data j m'.
Proof.
  intros E [H1 (r & Hr & H2)]. split.
  - intros r' Hr'. rewrite <- E. now apply H1.
  - exists r. split; [exact Hr|]. now rewrite H2.
Qed.

Lemma bounds_entry_value (l : limit) (extremum : Q) :
  bounds_entry l extremum
  == match l with inf => extremum | fin q => q end.
Proof. destruct l; unfold bounds_entry; simpl; ring. Qed.

(** The bounds of lines 112-138 in terms of the table and the limits. *)
Lemma resolve_bounds_entries (data : ndarray)
  (lims lims' : option (list (limit * limit)))
  (lower upper : list Q) (ws : list warning) :
  well_shaped data ->
  match lims with None => True | Some l => length l = (ncols data - 1)%nat end ->
  resolve_bounds lims (map (@tl Q) (rows data)) = Ok (lower, upper, lims', ws) ->
  exists mins maxs,
    (forall j, (j < ncols data - 1)%nat ->
       column_min data j (nth j mins 0) /\ column_max data j (nth j maxs 0)) /\
    (forall j, (j < ncols data - 1)%nat ->
       nth j lower 0
       == match lims with
          | None => nth j mins 0
          | Some l => match fst (nth j l (inf, inf)) with
                      | inf => nth j mins 0
                      | fin q => q
                      end
          end /\
       nth j upper 0
       == match lims with
          | None => nth j maxs 0
          | Some l => match snd (nth j l (inf, inf)) with
                      | inf => nth j maxs 0
                      | fin q => q
                      end
          end) /\
    ws = match lims with
         | None => []
         | Some _ =>
             if negb (all (map2 (fun m b => Qle_bool b m) mins lower)
                      || all (map2 Qle_bool maxs upper))
             then [LimitsWarning mins lower maxs upper] else []
         end /\
    length mins = (ncols data - 1)%nat /\
    length maxs = (ncols data - 1)%nat.
Proof.
  intros Hd Hl H.
  assert (Hne : rows data <> []).
  { intros E. rewrite E in H. destruct lims; discriminate. }
  destruct (column_extrema data Hd Hne)
    as (mins & maxs & Emin & Emax & Lmin & Lmax & Hcol).
  exists mins, maxs. split; [exact Hcol|].
  unfold resolve_bounds in H. rewrite Emin, Emax in H. cbn [bind] in H.
  destruct lims as [l|].
  - rewrite !assign_column_same in H by congruence. cbn [bind] in H.
    rewrite !broadcast_same_length in H
      by (rewrite length_map2, length_map; lia).
    cbn [bind] in H. inversion H; subst. clear H.
    repeat split; auto.
    + rewrite (nth_map2 bounds_entry inf 0 0)
        by (rewrite ?length_map; lia).
      rewrite bounds_entry_value.
      change inf with (fst (inf, inf)) at 1. rewrite map_nth. reflexivity.
    + rewrite (nth_map2 bounds_entry inf 0 0)
        by (rewrite ?length_map; lia).
      rewrite bounds_entry_value.
      change inf with (snd (inf, inf)) at 1. rewrite map_nth. reflexivity.
  - inversion H; subst. repeat split; auto; reflexivity.
Qed.

(** X7.  The bounds a successful [define_bins] stores in [self.d] and
    [self.end], dimension by dimension: with [limits=None] they are the
    least and the greatest lens coordinate of the table; with explicit limits
    each side is the configured number, or the least (greatest) lens
    coordinate where the configured entry is the unbounded marker. *)
Theorem define_bins_bounds (self self' : Cover) (data : ndarray)
  (ws : list warning) (coords : list (list Z)) (g : Geometry) (j : nat) :
  well_shaped data -> limits_match self data ->
  define_bins self data = (self', ws, Ok coords) ->
  geometry self' = Some g ->
  (j < ncols data - 1)%nat ->
  match limits self with
  | None =>
      column_min data j (nth j (d g) 0) /\
      column_max data j (nth j (end_ g) 0)
  | Some l =>
      resolved_lower data j (fst (nth j l (inf, inf))) (nth j (d g) 0) /\
      resolved_upper data j (snd (nth j l (inf, inf))) (nth j (end_ g) 0)
  end.
Proof.
  intros Hd Hl H Hg Hj.
  destruct (define_bins_geometry _ _ _ _ _ Hd Hl H)
    as (g' & lower & upper & lims' & cs & Hb & _ & _ & Hg' & _ & Hdim).
  rewrite Hg in Hg'. inversion Hg'; subst g'. clear Hg'.
  destruct (Hdim j Hj) as [Ed Ee _ _ _]. rewrite Ed, Ee.
  destruct (resolve_bounds_entries data _ _ _ _ _ Hd Hl Hb)
    as (mins & maxs & Hcol & Hent & _).
  destruct (Hcol j Hj) as [Cmin Cmax]. destruct (Hent j Hj) as [E1 E2].
  destruct (limits self) as [l|].
  - unfold resolved_lower, resolved_upper. split.
    + destruct (fst (nth j l (inf, inf))); [|exact E1].
      eapply column_min_eq; [|exact Cmin]. now symmetry.
    + destruct (snd (nth j l (inf, inf))); [|exact E2].
      eapply column_max_eq; [|exact Cmax]. now symmetry.
  - split.
    + eapply column_min_eq; [|exact Cmin]. now symmetry.
    + eapply column_max_eq; [|exact Cmax]. now symmetry.
Qed.

Lemma define_bins_bounds_witness :
  resolved_lower table3 0 (fin 1) (nth 0 (d geometry_mixed) 0) /\
  resolved_upper table3 0 inf (nth 0 (end_ geometry_mixed) 0).
Proof.
  apply (define_bins_bounds cover_mixed_limits
           (run_define_bins cover_mixed_limits table3) table3
           (snd (fst (define_bins cover_mixed_limits table3)))
           (product [range 2; range 2]) geometry_mixed 0).
  - exact table3_well_shaped.
  - reflexivity.
  - vm_compute. reflexivity.
  - vm_compute. reflexivity.
  - simpl. lia.
Defined.

(** ** define_bins: when the warning about the limits is emitted *)

Lemma forallb_false_exists {I : Type} (h : I -> bool) (s : list I) :
  forallb h s = false -> exists i, In i s /\ h i = false.
Proof.
  induction s as [|i s IH]; simpl; [discriminate|].
  destruct (h i) eqn:E; simpl.
  - intros H. destruct (IH H) as (i' & Hi' & E'). exists i'. auto.
  - intros _. exists i. auto.
Qed.

Lemma all_map2_false (f : Q -> Q -> bool) (xs ys : list Q) (k : nat) :
  length xs = k -> length ys = k ->
  all (map2 f xs ys) = false ->
  exists j, (j < k)%nat /\ f (nth j xs 0) (nth j ys 0) = false.
Proof.
  intros Hx Hy H.
  rewrite (as_table 0 xs k Hx), (as_table 0 ys k Hy) in H.
  rewrite map2_map_same, all_map_true in H.
  destruct (forallb_false_exists _ _ H) as (j & Hj & E).
  apply in_seq in Hj. exists j. split; [lia | exact E].
Qed.

Lemma Qle_bool_false (x y : Q) : Qle_bool x y = false <-> y < x.
Proof.
  split.
  - intros H. apply Qnot_le_lt. intros Hle.
    apply Qle_bool_iff in Hle. congruence.
  - intros H. destruct (Qle_bool x y) eqn:E; [|reflexivity].
    apply Qle_bool_iff in E. exfalso. now apply (Qlt_not_le y x).
Qed.

(** X8.  The condition of lines 125-128 as it is coded.  A successful
    [define_bins] emits a warning exactly when some lens coordinate of the
    table lies below the stored lower bound on some dimension and, on the
    same or on another dimension, some lens coordinate lies above the stored
    upper bound.  Data that leave the bounds on one side only are not
    reported, and with [limits=None] no warning is ever emitted. *)
Theorem limits_warning_iff (self self' : Cover) (data : ndarray)
  (ws : list warning) (coords : list (list Z)) (g : Geometry) :
  well_shaped data -> limits_match self data ->
  define_bins self data = (self', ws, Ok coords) ->
  geometry self' = Some g ->
  (ws <> [] <->
   (exists r j, In r (rows data) /\ (j < ncols data - 1)%nat /\
                lens r j < nth j (d g) 0) /\
   (exists r j, In r (rows data) /\ (j < ncols data - 1)%nat /\
                nth j (end_ g) 0 < lens r j)) /\
  (limits self = None -> ws = []).
Proof.
  intros Hd Hl H Hg.
  destruct (define_bins_geometry _ _ _ _ _ Hd Hl H)
    as (g' & lower & upper & lims' & cs & Hb & _ & _ & Hg' & _ & Hdim).
  rewrite Hg in Hg'. inversion Hg'; subst g'. clear Hg'.
  destruct (resolve_bounds_shape _ _ _ _ _ _ _ (indexless_shape data Hd) Hl Hb)
    as [Llo Lhi].
  destruct (resolve_bounds_entries data _ _ _ _ _ Hd Hl Hb)
    as (mins & maxs & Hcol & Hent & Hws & Lmin & Lmax).
  set (k := (ncols data - 1)%nat) in *.
  assert (Below : all (map2 (fun m b => Qle_bool b m) mins lower) = false <->
                  exists r j, In r (rows data) /\ (j < k)%nat /\
                              lens r j < nth j (d g) 0).
  { split.
    - intros E. destruct (all_map2_false _ _ _ k Lmin Llo E) as (j & Hj & F).
      apply Qle_bool_false in F.
      destruct (Hcol j Hj) as [[_ (r & Hr & Er)] _].
      exists r, j. split; [exact Hr|]. split; [exact Hj|].
      rewrite (dim_d _ _ _ _ _ _ (Hdim j Hj)), Er. exact F.
    - intros (r & j & Hr & Hj & Hlt).
      destruct (all (map2 _ mins lower)) eqn:E; [|reflexivity].
      apply (all_map2_nth _ mins lower k j Lmin Llo Hj) in E.
      apply Qle_bool_iff in E.
      destruct (Hcol j Hj) as [[Hmin _] _]. specialize (Hmin r Hr).
      rewrite (dim_d _ _ _ _ _ _ (Hdim j Hj)) in Hlt. lra. }
  assert (Above : all (map2 Qle_bool maxs upper) = false <->
                  exists r j, In r (rows data) /\ (j < k)%nat /\
                              nth j (end_ g) 0 < lens r j).
  { split.
    - intros E. destruct (all_map2_false _ _ _ k Lmax Lhi E) as (j & Hj & F).
      apply Qle_bool_false in F.
      destruct (Hcol j Hj) as [_ [_ (r & Hr & Er)]].
      exists r, j. split; [exact Hr|]. split; [exact Hj|].
      rewrite (dim_end _ _ _ _ _ _ (Hdim j Hj)), Er. exact F.
    - intros (r & j & Hr & Hj & Hlt).
      destruct (all (map2 _ maxs upper)) eqn:E; [|reflexivity].
      apply (all_map2_nth _ maxs upper k j Lmax Lhi Hj) in E.
      apply Qle_bool_iff in E.
      destruct (Hcol j Hj) as [_ [Hmax _]]. specialize (Hmax r Hr).
      rewrite (dim_end _ _ _ _ _ _ (Hdim j Hj)) in Hlt. lra. }
  split.
  - destruct (limits self) as [l|].
    + rewrite <- Below, <- Above. rewrite Hws.
      destruct (all (map2 _ mins lower)), (all (map2 _ maxs upper)); simpl;
        split; try (intros [? ?]; discriminate); try congruence;
        try (intros _; split; reflexivity); intros _; discriminate.
    + rewrite <- Below, <- Above. rewrite Hws. split; [congruence|].
      intros [E _]. exfalso.
      destruct (all_map2_false _ _ _ k Lmin Llo E) as (j & Hj & F).
      apply Qle_bool_false in F. destruct (Hent j Hj) as [E1 _].
      rewrite E1 in F. now apply (Qlt_irrefl (nth j mins 0)).
  - intros En. rewrite En in Hws. exact Hws.
Qed.

Lemma limits_warning_iff_witness :
  (snd (fst (define_bins cover_mixed_limits table3)) <> [] <->
   (exists r j, In r (rows table3) /\ (j < 3 - 1)%nat /\
                lens r j < nth j (d geometry_mixed) 0) /\
   (exists r j, In r (rows table3) /\ (j < 3 - 1)%nat /\
                nth j (end_ geometry_mixed) 0 < lens r j)) /\
  (limits cover_mixed_limits = None ->
   snd (fst (define_bins cover_mixed_limits table3)) = []).
Proof.
  apply (limits_warning_iff cover_mixed_limits
           (run_define_bins cover_mixed_limits table3) table3
           (snd (fst (define_bins cover_mixed_limits table3)))
           (product [range 2; range 2]) geometry_mixed).
  - exact table3_well_shaped.
  - reflexivity.
  - vm_compute. reflexivity.
  - vm_compute. reflexivity.
Defined.

Example limits_warning_mixed :
  snd (fst (define_bins cover_mixed_limits table3))
  = [LimitsWarning [0; 0] [1; 0] [4; 4] [4; 3]].
Proof. vm_compute. reflexivity. Qed.

(** ** find_entries: what it returns *)

Lemma sublist_nil_l {A : Type} (l : list A) : sublist [] l.
Proof. induction l; constructor; auto. Qed.

Lemma sublist_incl {A : Type} (l1 l2 : list A) :
  sublist l1 l2 -> incl l1 l2.
Proof.
  induction 1 as [|x l1 l2 H IH|x l1 l2 H IH]; intros a Ha.
  - destruct Ha.
  - right. now apply IH.
  - destruct Ha as [<-|Ha]; [now left | right; now apply IH].
Qed.

Lemma sublist_length {A : Type} (l1 l2 : list A) :
  sublist l1 l2 -> (length l1 <= length l2)%nat.
Proof. induction 1; simpl; lia. Qed.

Lemma select_rows_sublist (rs : list (list Q)) (mask : list bool) :
  sublist (select_rows rs mask) rs.
Proof.
  unfold select_rows. revert mask.
  induction rs as [|r rs IH]; intros mask; simpl; [constructor|].
  destruct mask as [|b mask]; simpl; [apply sublist_nil_l|].
  destruct b; simpl; constructor; apply IH.
Qed.

(** X9.  Whenever [find_entries] returns, in whatever state the object is
    and whatever the shapes of the table and of the coordinate, the result
    has the table's columns and its rows are a selection of the table's rows
    in their order: no row is altered, invented, repeated or moved. *)
Theorem find_entries_selects_rows (self : Cover) (data out : ndarray)
  (cube : list Z) :
  find_entries self data cube = Ok out ->
  ncols out = ncols data /\
  sublist (rows out) (rows data) /\
  incl (rows out) (rows data) /\
  (length (rows out) <= length (rows data))%nat.
Proof.
  unfold find_entries. intros H.
  destruct (geometry self) as [g|]; [|discriminate].
  repeat match type of H with
         | bind ?r _ = Ok _ =>
             destruct r; [cbn [bind] in H | discriminate]
         end.
  inversion H; subst; clear H. cbn [ncols rows].
  split; [reflexivity|]. split; [apply select_rows_sublist|].
  split; [apply sublist_incl | apply sublist_length];
    apply select_rows_sublist.
Qed.

Lemma find_entries_selects_rows_witness :
  ncols table3_middle = ncols table3 /\
  sublist (rows table3_middle) (rows table3) /\
  incl (rows table3_middle) (rows table3) /\
  (length (rows table3_middle) <= length (rows table3))%nat.
Proof.
  apply (find_entries_selects_rows (run_define_bins cover_2_half table3)
           table3 table3_middle [0; 1]%Z).
  vm_compute. reflexivity.
Defined.

Lemma clip1_upper (a lo hi : Q) : clip1 a lo hi <= hi.
Proof. unfold clip1. apply Q.le_min_r. Qed.

Lemma clip1_lower (a lo hi : Q) : lo <= hi -> lo <= clip1 a lo hi.
Proof.
  intros H. unfold clip1. apply Q.min_glb; [apply Q.le_max_r | exact H].
Qed.

(** X10.  The clipping of lines 197-198 keeps every bin inside the stored
    bounds: a row that [find_entries] returns has on every dimension a lens
    coordinate not above [self.end], and not below [self.d] where
    [self.d <= self.end].  With explicit limits narrower than the data the
    rows outside them are therefore in no bin. *)
Theorem find_entries_within_bounds (self self' : Cover) (data out : ndarray)
  (ws : list warning) (coords : list (list Z)) (g : Geometry)
  (cube : list Z) (r : list Q) (j : nat) :
  well_shaped data -> (2 <= ncols data)%nat -> limits_match self data ->
  define_bins self data = (self', ws, Ok coords) ->
  geometry self' = Some g ->
  length cube = (ncols data - 1)%nat ->
  find_entries self' data cube = Ok out ->
  In r (rows out) -> (j < ncols data - 1)%nat ->
  lens r j <= nth j (end_ g) 0 /\
  (nth j (d g) 0 <= nth j (end_ g) 0 -> nth j (d g) 0 <= lens r j).
Proof.
  intros Hd Hcols Hl H Hg Hcube Hf Hr Hj.
  destruct (define_bins_shaped _ _ _ _ _ Hd Hl H) as (g' & Hg' & Hs).
  rewrite Hg in Hg'. inversion Hg'; subst g'. clear Hg'.
  rewrite (find_entries_filter self' g data cube (ncols data - 1)) in Hf;
    auto; [|lia].
  inversion Hf; subst out. cbn [rows] in Hr.
  apply filter_In in Hr. destruct Hr as [_ Hin].
  rewrite in_bin_iff, (shaped_nr _ _ Hs) in Hin.
  destruct (Hin j Hj) as [H1 H2]. split.
  - eapply Qle_trans; [exact H2|]. apply clip1_upper.
  - intros Hle. eapply Qle_trans; [|exact H1]. now apply clip1_lower.
Qed.

Lemma find_entries_within_bounds_witness :
  lens row_middle 0 <= nth 0 (end_ geometry_mixed) 0 /\
  (nth 0 (d geometry_mixed) 0 <= nth 0 (end_ geometry_mixed) 0 ->
   nth 0 (d geometry_mixed) 0 <= lens row_middle 0).
Proof.
  apply (find_entries_within_bounds cover_mixed_limits
           (run_define_bins cover_mixed_limits table3) table3
           table3_middle
           (snd (fst (define_bins cover_mixed_limits table3)))
           (product [range 2; range 2]) geometry_mixed [0; 0]%Z
           row_middle 0).
  - exact table3_well_shaped.
  - simpl. lia.
  - reflexivity.
  - vm_compute. reflexivity.
  - vm_compute. reflexivity.
  - reflexivity.
  - vm_compute. reflexivity.
  - simpl. auto.
  - simpl. lia.
Defined.

(** ** find_entries: the shape of the coordinate and of the table *)

Lemma map2_repeat {A B C : Type} (f : A -> B -> C) (x : A) (ys : list B) :
  map2 f (repeat x (length ys)) ys = map (f x) ys.
Proof. induction ys as [|y ys IH]; simpl; [reflexivity|]. now rewrite IH. Qed.

Lemma broadcast_singleton {A B C : Type} (f : A -> B -> C) (x : A)
  (ys : list B) :
  broadcast f [x] ys = broadcast f (repeat x (length ys)) ys.
Proof.
  destruct ys as [|y [|y' ys]]; try reflexivity.
  transitivity (@Ok (list C) (map (f x) (y :: y' :: ys))); [reflexivity|].
  unfold broadcast, broadcastable, bc.
  rewrite repeat_length, !Nat.eqb_refl. cbn [orb].
  rewrite map2_repeat. reflexivity.
Qed.

(** X12.  A coordinate with a single entry is broadcast by NumPy: on an
    object that has its geometry, [find_entries] with [[i]] does what it does
    with the coordinate that has [i] on every dimension. *)
Theorem find_entries_single_entry (self : Cover) (g : Geometry)
  (data : ndarray) (i : Z) :
  geometry self = Some g ->
  find_entries self data [i]
  = find_entries self data (repeat i (length (base_dist g))).
Proof.
  intros Hg. unfold find_entries. rewrite Hg.
  replace (map inject_Z (repeat i (length (base_dist g))))
    with (repeat (inject_Z i) (length (base_dist g))).
  - cbn [map]. now rewrite broadcast_singleton.
  - induction (length (base_dist g)) as [|m IH]; simpl; [reflexivity|].
    now rewrite IH.
Qed.

Lemma find_entries_single_entry_witness :
  find_entries (run_define_bins cover_2_half table3) table3 [1%Z]
  = find_entries (run_define_bins cover_2_half table3) table3
      (repeat 1%Z (length (base_dist geometry_half))).
Proof.
  apply (find_entries_single_entry (run_define_bins cover_2_half table3)
           geometry_half table3 1%Z).
  vm_compute. reflexivity.
Defined.

(** X13.  A coordinate whose length is neither 1 nor the length of the
    stored widths (and these are not of length 1 either) cannot be
    broadcast: [find_entries] raises NumPy's [ValueError] at line 194 and
    returns no rows. *)
Theorem find_entries_bad_cube (self : Cover) (g : Geometry)
  (data : ndarray) (cube : list Z) :
  geometry self = Some g ->
  length cube <> length (base_dist g) ->
  length cube <> 1%nat -> length (base_dist g) <> 1%nat ->
  find_entries self data cube
  = Raise (ValueError_broadcast (length cube) (length (base_dist g))).
Proof.
  intros Hg H1 H2 H3. unfold find_entries. rewrite Hg.
  unfold broadcast at 1. rewrite length_map. unfold broadcastable.
  destruct (Nat.eqb_spec (length cube) (length (base_dist g)));
    [contradiction|].
  destruct (Nat.eqb_spec (length cube) 1); [contradiction|].
  destruct (Nat.eqb_spec (length (base_dist g)) 1); [contradiction|].
  reflexivity.
Qed.

Lemma find_entries_bad_cube_witness :
  find_entries (run_define_bins cover_2_half table3) table3 [0; 1; 0]%Z
  = Raise (ValueError_broadcast (length [0; 1; 0]%Z)
             (length (base_dist geometry_half))).
Proof.
  apply (find_entries_bad_cube (run_define_bins cover_2_half table3)
           geometry_half table3 [0; 1; 0]%Z).
  - vm_compute. reflexivity.
  - simpl. lia.
  - simpl. lia.
  - simpl. lia.
Defined.

Lemma take_columns_width (data : ndarray) (k : nat) :
  (1 <= k)%nat ->
  take_columns data (seq 1 k)
  = if Nat.ltb k (ncols data)
    then Ok (map (fun r => map (lens r) (seq 0 k)) (rows data))
    else Raise IndexError.
Proof.
  intros Hpos. unfold take_columns.
  destruct (seq 1 k) as [|i0 s0] eqn:Es.
  { destruct k; [lia | discriminate]. }
  rewrite <- Es. clear Es i0 s0.
  destruct (Nat.ltb_spec k (ncols data)) as [Hlt|Hge].
  - assert (E : forallb (fun i => Nat.ltb i (ncols data)) (seq 1 k) = true).
    { apply forallb_forall. intros i Hi. apply in_seq in Hi.
      apply Nat.ltb_lt. lia. }
    rewrite E. f_equal. apply map_ext. intros r.
    rewrite <- seq_shift, map_map. reflexivity.
  - destruct (forallb _ (seq 1 k)) eqn:E; [|reflexivity].
    rewrite forallb_forall in E.
    assert (Hk : In k (seq 1 k)) by (apply in_seq; lia).
    apply E in Hk. apply Nat.ltb_lt in Hk. lia.
Qed.

(** X14.  [find_entries] may be given another table than the one
    [define_bins] saw.  With a geometry of [k >= 1] dimensions and one of
    the coordinates [define_bins] returned (so every dimension has at least
    one cube), a table with at most [k] columns makes the column selection
    of line 202 raise [IndexError]; a table with more columns is filtered on
    its columns 1 to [k], and any further column is carried along without
    being read. *)
Theorem find_entries_other_table (self self' : Cover) (data0 data : ndarray)
  (ws : list warning) (coords : list (list Z)) (g : Geometry)
  (cube : list Z) :
  well_shaped data0 -> (2 <= ncols data0)%nat -> limits_match self data0 ->
  define_bins self data0 = (self', ws, Ok coords) ->
  geometry self' = Some g ->
  In cube coords ->
  find_entries self' data cube
  = if Nat.leb (ncols data0) (ncols data)
    then Ok (mk_ndarray (ncols data) (filter (in_bin g cube) (rows data)))
    else Raise IndexError.
Proof.
  intros Hd0 Hcols Hl H Hg Hin.
  assert (Hcube : length cube = (ncols data0 - 1)%nat).
  { destruct (define_bins_geometry _ _ _ _ _ Hd0 Hl H)
      as (_ & _ & _ & _ & cs & _ & Hcs & Hco & _).
    rewrite Hco in Hin. apply in_coordinates in Hin.
    rewrite (Forall2_length_eq _ _ _ Hin). now apply cubes_length in Hcs. }
  destruct (define_bins_shaped _ _ _ _ _ Hd0 Hl H) as (g' & Hg' & Hs).
  rewrite Hg in Hg'. inversion Hg'; subst g'. clear Hg'.
  set (k := (ncols data0 - 1)%nat) in *.
  assert (Hpos : (1 <= k)%nat) by (unfold k; lia).
  destruct Hs as [Hb Ho Hc Hd He Hdi Hnr].
  unfold find_entries. rewrite Hg. unfold np_clip.
  destruct g as [base overlap chunk lo hi dims nr]; simpl in *.
  subst dims nr.
  set (member := in_bin _ cube).
  rewrite (take_columns_width data k Hpos).
  replace (Nat.leb (ncols data0) (ncols data)) with (Nat.ltb k (ncols data)).
  2:{ destruct (Nat.ltb_spec k (ncols data)), (Nat.leb_spec (ncols data0) (ncols data));
        try reflexivity; unfold k in *; lia. }
  rewrite (as_table 0%Z cube k Hcube), (as_table 0 base k Hb),
    (as_table 0 overlap k Ho), (as_table 0 chunk k Hc),
    (as_table 0 lo k Hd), (as_table 0 hi k He).
  rewrite map_map.
  repeat (rewrite broadcast_same_length
            by (now rewrite !length_map); cbn [bind];
          rewrite map2_map_same).
  destruct (Nat.ltb k (ncols data)); [|reflexivity]. cbn [bind].
  unfold broadcast_rows. rewrite !length_map, !length_seq.
  rewrite broadcastable_refl. cbn [bind].
  rewrite !map_map, map2_rows, map_map, select_rows_map.
  do 2 f_equal. apply filter_ext. intros r.
  rewrite (bc_same_length (fun v lo => Qle_bool lo v))
    by (now rewrite !length_map).
  rewrite (bc_same_length Qle_bool) by (now rewrite !length_map).
  rewrite !map2_map_same.
  rewrite bc_same_length by (now rewrite !length_map).
  rewrite map2_map_same, all_map_true.
  reflexivity.
Qed.

Lemma find_entries_other_table_witness :
  find_entries (run_define_bins cover_2_half table3) table3_wide [0; 1]%Z
  = if Nat.leb (ncols table3) (ncols table3_wide)
    then Ok (mk_ndarray (ncols table3_wide)
               (filter (in_bin geometry_half [0; 1]%Z) (rows table3_wide)))
    else Raise IndexError.
Proof.
  apply (find_entries_other_table cover_2_half
           (run_define_bins cover_2_half table3) table3 table3_wide
           [] (product [range 2; range 2]) geometry_half [0; 1]%Z).
  - exact table3_well_shaped.
  - simpl. lia.
  - exact I.
  - vm_compute. reflexivity.
  - vm_compute. reflexivity.
  - simpl. auto.
Defined.

Example find_entries_wide_table :
  find_entries (run_define_bins cover_2_half table3) table3_wide [0; 1]%Z
  = Ok (mk_ndarray 4 [[1; 1; 2; 8]]) /\
  find_entries (run_define_bins cover_2_half table3) table_0_1 [0; 1]%Z
  = Raise IndexError.
Proof. split; vm_compute; reflexivity. Qed.

(** ** When define_bins returns *)

(** X16.  On a rectangular table, with limits (if any) of one pair per
    lens column, [define_bins] returns coordinates exactly when the table has
    a row and [n_cubes] is an integer or a list with one entry per lens
    column; in every other case it raises. *)
Theorem define_bins_returns_iff (self : Cover) (data : ndarray) :
  well_shaped data -> limits_match self data ->
  (exists self' ws coords, define_bins self data = (self', ws, Ok coords))
  <-> rows data <> [] /\ cubes_match self data.
Proof.
  intros Hd Hl. split.
  - intros (self' & ws & coords & H).
    destruct (define_bins_inv _ _ _ _ _ H)
      as (lower & upper & lims' & base & cs & Hb & _ & Hcs & _ & _).
    split.
    + intros E. rewrite E in Hb. destruct (limits self); discriminate.
    + unfold cubes_match. unfold cubes in Hcs.
      destruct (n_cubes self) as [n|l]; [exact I|].
      destruct (Nat.eqb_spec (length l) (ncols data - 1));
        [assumption | discriminate].
  - intros [Hne Hc].
    destruct (define_bins_total self data Hd Hne Hl Hc) as (self' & ws & H).
    eauto.
Qed.

Lemma define_bins_returns_iff_witness :
  (exists self' ws coords,
     define_bins cover_list_2_3 table3 = (self', ws, Ok coords))
  <-> rows table3 <> [] /\ cubes_match cover_list_2_3 table3.
Proof.
  apply (define_bins_returns_iff cover_list_2_3 table3).
  - exact table3_well_shaped.
  - exact I.
Defined.

(** * Properties of the binary64 code *)

(** ** The order of binary64 numbers *)

Section FloatOrder.
Import PrimFloat SpecFloat FloatOps FloatAxioms.
Local Open Scope float_scope.

Ltac compare_cases :=
  repeat match goal with
         | H : context [Pos.compare_cont Eq ?a ?b] |- _ =>
             change (Pos.compare_cont Eq a b) with (Pos.compare a b) in H
         | |- context [Pos.compare_cont Eq ?a ?b] =>
             change (Pos.compare_cont Eq a b) with (Pos.compare a b)
         end;
  repeat match goal with
         | H : context [Z.compare ?a ?b] |- _ =>
             destruct (Z.compare_spec a b); simpl in H
         | |- context [Z.compare ?a ?b] =>
             destruct (Z.compare_spec a b); simpl
         | H : context [Pos.compare ?a ?b] |- _ =>
             destruct (Pos.compare_spec a b); simpl in H
         | |- context [Pos.compare ?a ?b] =>
             destruct (Pos.compare_spec a b); simpl
         end;
  subst; try discriminate; try reflexivity; try lia.

Lemma SFleb_trans (f1 f2 f3 : spec_float) :
  SFleb f1 f2 = true -> SFleb f2 f3 = true -> SFleb f1 f3 = true.
Proof.
  unfold SFleb, SFcompare.
  destruct f1 as [s1|s1| |s1 m1 e1], f2 as [s2|s2| |s2 m2 e2],
           f3 as [s3|s3| |s3 m3 e3];
    try destruct s1; try destruct s2; try destruct s3; simpl;
    intros H1 H2; try discriminate; try reflexivity; compare_cases.
Qed.

Lemma SFleb_total (f1 f2 : spec_float) :
  SFeqb f1 f1 = true -> SFeqb f2 f2 = true ->
  SFleb f1 f2 = false -> SFleb f2 f1 = true.
Proof.
  unfold SFleb, SFeqb, SFcompare.
  destruct f1 as [s1|s1| |s1 m1 e1], f2 as [s2|s2| |s2 m2 e2];
    try destruct s1; try destruct s2; simpl;
    intros H1 H2 H3; try discriminate; try reflexivity; compare_cases.
Qed.

Lemma SFleb_not_nan (f1 f2 : spec_float) :
  SFleb f1 f2 = true -> SFeqb f1 f1 = true /\ SFeqb f2 f2 = true.
Proof.
  unfold SFleb, SFeqb, SFcompare.
  destruct f1 as [s1|s1| |s1 m1 e1], f2 as [s2|s2| |s2 m2 e2];
    try destruct s1; try destruct s2; simpl;
    intros H1; try discriminate; split; try reflexivity;
    rewrite ?Z.compare_refl;
    change (Pos.compare_cont Eq ?a ?b) with (Pos.compare a b);
    rewrite ?Pos.compare_refl; reflexivity.
Qed.

Lemma SFleb_refl (f : spec_float) : SFeqb f f = true -> SFleb f f = true.
Proof.
  unfold SFleb, SFeqb. destruct (SFcompare f f) as [[| |]|]; congruence.
Qed.

Lemma is_nan_false (x : float) :
  is_nan x = false <-> SFeqb (Prim2SF x) (Prim2SF x) = true.
Proof.
  unfold is_nan. rewrite eqb_spec.
  destruct (SFeqb _ _); simpl; split; congruence.
Qed.

(** [<=] on binary64 numbers is transitive, total on the numbers that are
    not NaN, and never holds of a NaN. *)
Lemma leb_trans (x y z : float) :
  (x <=? y) = true -> (y <=? z) = true -> (x <=? z) = true.
Proof. rewrite !leb_spec. apply SFleb_trans. Qed.

Lemma leb_total (x y : float) :
  is_nan x = false -> is_nan y = false ->
  (x <=? y) = false -> (y <=? x) = true.
Proof. rewrite !is_nan_false, !leb_spec. apply SFleb_total. Qed.

Lemma leb_not_nan (x y : float) :
  (x <=? y) = true -> is_nan x = false /\ is_nan y = false.
Proof. rewrite !is_nan_false, leb_spec. apply SFleb_not_nan. Qed.

Lemma leb_refl (x : float) : is_nan x = false -> (x <=? x) = true.
Proof. rewrite is_nan_false, leb_spec. apply SFleb_refl. Qed.

(** [np.minimum] and [np.maximum] when the result is not NaN. *)
Lemma minimum_not_nan (a b : float) :
  is_nan (B64.minimum a b) = false ->
  is_nan a = false /\ is_nan b = false /\
  (B64.minimum a b <=? a) = true /\ (B64.minimum a b <=? b) = true.
Proof.
  unfold B64.minimum.
  destruct (a <=? b) eqn:Eab; simpl.
  - intros Ha. destruct (leb_not_nan _ _ Eab) as [_ Hb].
    repeat split; auto. now apply leb_refl.
  - destruct (is_nan a) eqn:Ea; [congruence|]. intros Hb.
    repeat split; auto; [now apply leb_total | now apply leb_refl].
Qed.

Lemma maximum_not_nan (a b : float) :
  is_nan (B64.maximum a b) = false ->
  is_nan a = false /\ is_nan b = false /\
  (a <=? B64.maximum a b) = true /\ (b <=? B64.maximum a b) = true.
Proof.
  unfold B64.maximum.
  destruct (b <=? a) eqn:Eba; simpl.
  - intros Ha. destruct (leb_not_nan _ _ Eba) as [Hb _].
    repeat split; auto. now apply leb_refl.
  - destruct (is_nan a) eqn:Ea; [congruence|]. intros Hb.
    repeat split; auto; [now apply leb_total | now apply leb_refl].
Qed.

Lemma fold_minimum_le (rs : list (list float)) (acc : list float)
  (k j : nat) :
  length acc = k -> Forall (fun r => length r = k) rs -> (j < k)%nat ->
  is_nan (nth j (fold_left (map2 B64.minimum) rs acc) zero) = false ->
  forall r, In r (acc :: rs) ->
    (nth j (fold_left (map2 B64.minimum) rs acc) zero <=? nth j r zero)
    = true.
Proof.
  revert acc; induction rs as [|r rs IH]; intros acc Hacc Hrs Hj Hn; simpl.
  - intros r [<-|[]]. now apply leb_refl.
  - inversion Hrs as [|? ? Hr Hrs']; subst. simpl in Hn.
    assert (La : length (map2 B64.minimum acc r) = length acc).
    { rewrite length_map2. lia. }
    pose proof (IH (map2 B64.minimum acc r) La Hrs' Hj Hn) as H.
    pose proof (H _ (or_introl eq_refl)) as H0.
    rewrite (nth_map2 B64.minimum zero zero zero) in H0 by lia.
    destruct (leb_not_nan _ _ H0) as [_ Hm].
    destruct (minimum_not_nan _ _ Hm) as (_ & _ & Ma & Mr).
    intros r' [<-|[<-|Hin]].
    + eapply leb_trans; [exact H0 | exact Ma].
    + eapply leb_trans; [exact H0 | exact Mr].
    + apply H. now right.
Qed.

Lemma fold_maximum_ge (rs : list (list float)) (acc : list float)
  (k j : nat) :
  length acc = k -> Forall (fun r => length r = k) rs -> (j < k)%nat ->
  is_nan (nth j (fold_left (map2 B64.maximum) rs acc) zero) = false ->
  forall r, In r (acc :: rs) ->
    (nth j r zero <=? nth j (fold_left (map2 B64.maximum) rs acc) zero)
    = true.
Proof.
  revert acc; induction rs as [|r rs IH]; intros acc Hacc Hrs Hj Hn; simpl.
  - intros r [<-|[]]. now apply leb_refl.
  - inversion Hrs as [|? ? Hr Hrs']; subst. simpl in Hn.
    assert (La : length (map2 B64.maximum acc r) = length acc).
    { rewrite length_map2. lia. }
    pose proof (IH (map2 B64.maximum acc r) La Hrs' Hj Hn) as H.
    pose proof (H _ (or_introl eq_refl)) as H0.
    rewrite (nth_map2 B64.maximum zero zero zero) in H0 by lia.
    destruct (leb_not_nan _ _ H0) as [Hm _].
    destruct (maximum_not_nan _ _ Hm) as (_ & _ & Ma & Mr).
    intros r' [<-|[<-|Hin]].
    + eapply leb_trans; [exact Ma | exact H0].
    + eapply leb_trans; [exact Mr | exact H0].
    + apply H. now right.
Qed.

(** A point between the ends of a chain of intervals, each starting at or
    below the end of the one before it, lies in one of them. *)
Lemma chain_cover (L U : nat -> float) (x : float) (m : nat) :
  (L 0%nat <=? x) = true ->
  (forall i, (i < m)%nat -> (L (S i) <=? U i) = true) ->
  (x <=? U m) = true ->
  exists i, (i <= m)%nat /\ (L i <=? x) = true /\ (x <=? U i) = true.
Proof.
  intros H0. induction m as [|m IH]; intros Hc Hm.
  - exists 0%nat. auto.
  - destruct (x <=? U m) eqn:E.
    + destruct IH as (i & Hi & H1 & H2); auto.
      exists i. repeat split; auto.
    + exists (S m). repeat split; auto.
      pose proof (Hc m (Nat.lt_succ_diag_r m)) as Hl.
      eapply leb_trans; [exact Hl|].
      apply leb_total; auto.
      * now destruct (leb_not_nan _ _ H0).
      * now destruct (leb_not_nan _ _ Hl).
Qed.
End FloatOrder.

(** ** The binary64 code: shapes, success, and find_entries as a filter *)

Section Binary64.
Import PrimFloat.
Local Open Scope float_scope.

Lemma b64_select_rows_map (rs : list (list float)) (m : list float -> bool) :
  B64.select_rows rs (map m rs) = filter m rs.
Proof.
  unfold B64.select_rows. induction rs as [|r rs IH]; simpl; [reflexivity|].
  destruct (m r); simpl; now rewrite IH.
Qed.

Lemma b64_take_columns_lens (data : B64.ndarray) (k : nat) :
  (1 <= k)%nat -> k = (B64.ncols data - 1)%nat ->
  B64.take_columns data (seq 1 k)
  = Ok (map (fun r => map (B64.lens r) (seq 0 k)) (B64.rows data)).
Proof.
  intros Hpos Hk. unfold B64.take_columns.
  destruct (seq 1 k) as [|i0 s0] eqn:Es.
  { destruct k; [lia | discriminate]. }
  rewrite <- Es. clear Es i0 s0.
  assert (E : forallb (fun i => Nat.ltb i (B64.ncols data)) (seq 1 k) = true).
  { apply forallb_forall. intros i Hi. apply in_seq in Hi.
    apply Nat.ltb_lt. lia. }
  rewrite E. f_equal. apply map_ext. intros r.
  rewrite <- seq_shift, map_map. reflexivity.
Qed.

Lemma b64_find_entries_filter (self : B64.Cover) (g : B64.Geometry)
  (data : B64.ndarray) (cube : list Z) (k : nat) :
  B64.geometry self = Some g ->
  B64.shaped g k ->
  (1 <= k)%nat ->
  k = (B64.ncols data - 1)%nat ->
  length cube = k ->
  B64.find_entries self data cube
  = Ok (B64.mk_ndarray (B64.ncols data)
          (filter (B64.in_bin g cube) (B64.rows data))).
Proof.
  intros Hg [Hb Ho Hc Hd He Hdi Hnr] Hpos Hk Hcube.
  unfold B64.find_entries. rewrite Hg. unfold B64.np_clip.
  destruct g as [base overlap chunk lo hi dims nr]; simpl in *.
  subst dims nr.
  set (member := B64.in_bin _ cube).
  rewrite (b64_take_columns_lens data k Hpos Hk).
  rewrite (as_table 0%Z cube k Hcube), (as_table zero base k Hb),
    (as_table zero overlap k Ho), (as_table zero chunk k Hc),
    (as_table zero lo k Hd), (as_table zero hi k He).
  rewrite map_map.
  repeat (rewrite broadcast_same_length
            by (now rewrite !length_map); cbn [bind];
          rewrite map2_map_same).
  unfold B64.broadcast_rows. rewrite !length_map, !length_seq.
  rewrite broadcastable_refl. cbn [bind].
  rewrite !map_map, map2_map_same, map_map, b64_select_rows_map.
  do 2 f_equal. apply filter_ext. intros r.
  rewrite (bc_same_length (fun v lo => lo <=? v))
    by (now rewrite !length_map).
  rewrite (bc_same_length leb) by (now rewrite !length_map).
  rewrite !map2_map_same.
  rewrite bc_same_length by (now rewrite !length_map).
  rewrite map2_map_same, all_map_true.
  reflexivity.
Qed.

Lemma b64_fold_length (op : float -> float -> float)
  (rs : list (list float)) (acc : list float) (k : nat) :
  length acc = k -> Forall (fun r => length r = k) rs ->
  length (fold_left (map2 op) rs acc) = k.
Proof.
  revert acc; induction rs as [|r rs IH]; intros acc Hacc Hrs; simpl.
  - exact Hacc.
  - inversion Hrs; subst. apply IH; [|assumption].
    rewrite length_map2. lia.
Qed.

Lemma b64_indexless_shape (data : B64.ndarray) :
  B64.well_shaped data ->
  Forall (fun r => length r = (B64.ncols data - 1)%nat)
    (map (@tl float) (B64.rows data)).
Proof.
  unfold B64.well_shaped. intros H. apply Forall_map.
  eapply Forall_impl; [|exact H]. intros r Hr. simpl.
  destruct r; simpl in *; lia.
Qed.

Lemma b64_nth_tl (r : list float) (j : nat) :
  nth j (tl r) zero = B64.lens r j.
Proof.
  unfold B64.lens. destruct r; simpl; [now destruct j | reflexivity].
Qed.

Lemma b64_assign_column_same (k : nat) (v : list float) :
  length v = k -> B64.assign_column k v = Ok v.
Proof. intros E. unfold B64.assign_column. now rewrite E, Nat.eqb_refl. Qed.

(** The bounds of lines 112-138 on a table with a row. *)
Lemma b64_resolve_bounds (lims : option (list (float * float)))
  (a : list (list float)) (k : nat) :
  a <> [] -> Forall (fun r => length r = k) a ->
  match lims with None => True | Some l => length l = k end ->
  exists lower upper lims' ws,
    B64.resolve_bounds lims a = Ok (lower, upper, lims', ws) /\
    length lower = k /\ length upper = k /\
    (lims = None ->
     B64.np_min a = Ok lower /\ B64.np_max a = Ok upper).
Proof.
  intros Hne Ha Hl. destruct a as [|r0 rs]; [congruence|].
  inversion Ha as [|? ? H0 Hrs]; subst.
  unfold B64.resolve_bounds, B64.np_min, B64.np_max. cbn [bind].
  pose proof (b64_fold_length B64.minimum rs r0 _ eq_refl Hrs) as Lmin.
  pose proof (b64_fold_length B64.maximum rs r0 _ eq_refl Hrs) as Lmax.
  destruct lims as [l|].
  - rewrite !b64_assign_column_same by congruence. cbn [bind].
    rewrite !broadcast_same_length
      by (rewrite length_map2, length_map; lia).
    cbn [bind]. do 4 eexists. split; [reflexivity|].
    rewrite !length_map2, !length_map.
    split; [lia|]. split; [lia|]. discriminate.
  - do 4 eexists. split; [reflexivity|]. auto.
Qed.

Lemma b64_divide_length (x : list float) (n : cubes_arg) (k : nat)
  (cs : list Z) :
  length x = k -> cubes n k = Ok cs ->
  exists base, B64.divide x n = Ok base /\ length base = k.
Proof.
  intros Hx Hcs. destruct n as [n|l]; simpl in *.
  - eexists. split; [reflexivity|]. now rewrite length_map.
  - destruct (Nat.eqb_spec (length l) k); inversion Hcs; subst.
    rewrite broadcast_same_length by now rewrite length_map.
    eexists. split; [reflexivity|].
    rewrite length_map2, length_map. lia.
Qed.

(** On a rectangular table with a row, with limits and [n_cubes] of the
    table's dimension count, [define_bins] returns the coordinates and
    stores a geometry of the table's shape. *)
Lemma b64_define_bins_total (self : B64.Cover) (data : B64.ndarray) :
  B64.well_shaped data -> B64.rows data <> [] ->
  B64.limits_match self data -> B64.cubes_match self data ->
  exists self' ws g,
    B64.define_bins self data
    = (self', ws,
       Ok (product (map range
                      (cubes_of (B64.n_cubes self) (B64.ncols data - 1)))))
    /\ B64.geometry self' = Some g
    /\ B64.stored self data = Some g
    /\ B64.shaped g (B64.ncols data - 1)
    /\ (B64.limits self = None ->
        B64.np_min (map (@tl float) (B64.rows data)) = Ok (B64.d g) /\
        B64.np_max (map (@tl float) (B64.rows data)) = Ok (B64.end_ g)).
Proof.
  intros Hd Hne Hl Hc.
  assert (Hne' : map (@tl float) (B64.rows data) <> []).
  { destruct (B64.rows data); [congruence | discriminate]. }
  destruct (b64_resolve_bounds (B64.limits self) _ _ Hne'
              (b64_indexless_shape data Hd) Hl)
    as (lower & upper & lims' & ws & Hb & Llo & Lhi & Hnone).
  assert (Hcs : cubes (B64.n_cubes self) (B64.ncols data - 1)
                = Ok (cubes_of (B64.n_cubes self) (B64.ncols data - 1))).
  { unfold B64.cubes_match in Hc. unfold cubes, cubes_of.
    destruct (B64.n_cubes self) as [n|l]; [reflexivity|].
    now rewrite Hc, Nat.eqb_refl. }
  assert (Lx : length (bc sub upper lower) = (B64.ncols data - 1)%nat).
  { rewrite bc_same_length by congruence. rewrite length_map2. lia. }
  destruct (b64_divide_length _ _ _ _ Lx Hcs) as (base & Hdiv & Lb).
  unfold B64.stored, B64.define_bins. rewrite Hb, Hdiv.
  cbn [B64.nr_dimensions]. rewrite length_seq, Hcs. cbn [fst].
  do 3 eexists. split; [reflexivity|]. split; [reflexivity|].
  split; [reflexivity|]. split.
  - constructor; cbn; auto.
    + now rewrite length_map.
    + rewrite bc_same_length by now rewrite !length_map.
      rewrite length_map2, !length_map. lia.
  - exact Hnone.
Qed.
End Binary64.

(** ** Claims about the rows of a bin, in binary64 *)

Section Binary64Claims.
Import PrimFloat.
Local Open Scope float_scope.

Lemma b64_total_stored (self : B64.Cover) (data : B64.ndarray)
  (g : B64.Geometry) :
  B64.well_shaped data -> B64.rows data <> [] ->
  B64.limits_match self data -> B64.cubes_match self data ->
  B64.stored self data = Some g ->
  exists self' ws,
    B64.define_bins self data
    = (self', ws,
       Ok (product (map range
                      (cubes_of (B64.n_cubes self) (B64.ncols data - 1)))))
    /\ B64.geometry self' = Some g
    /\ B64.shaped g (B64.ncols data - 1)
    /\ (B64.limits self = None ->
        B64.np_min (map (@tl float) (B64.rows data)) = Ok (B64.d g) /\
        B64.np_max (map (@tl float) (B64.rows data)) = Ok (B64.end_ g)).
Proof.
  intros Hd Hne Hl Hc Hst.
  destruct (b64_define_bins_total self data Hd Hne Hl Hc)
    as (self' & ws & g' & H & Hg & Hst' & Hs & Hnone).
  rewrite Hst in Hst'. inversion Hst'; subst g'.
  exists self', ws. auto.
Qed.

(** The stored bounds enclose the table when they are its column minima
    and maxima and are not NaN. *)
Lemma b64_bounds_none (data : B64.ndarray) (lower upper : list float)
  (r : list float) (j : nat) :
  B64.well_shaped data ->
  B64.np_min (map (@tl float) (B64.rows data)) = Ok lower ->
  B64.np_max (map (@tl float) (B64.rows data)) = Ok upper ->
  In r (B64.rows data) -> (j < B64.ncols data - 1)%nat ->
  is_nan (nth j lower zero) = false ->
  is_nan (nth j upper zero) = false ->
  (nth j lower zero <=? B64.lens r j) = true /\
  (B64.lens r j <=? nth j upper zero) = true.
Proof.
  intros Hd Hmin Hmax Hr Hj Nl Nu.
  pose proof (b64_indexless_shape data Hd) as Hs.
  assert (Hin : In (tl r) (map (@tl float) (B64.rows data)))
    by now apply in_map.
  destruct (map (@tl float) (B64.rows data)) as [|t0 ts]; [destruct Hin|].
  inversion Hs as [|? ? H0 Hts]; subst.
  cbn in Hmin, Hmax. inversion Hmin; subst lower. inversion Hmax; subst upper.
  rewrite <- b64_nth_tl. split.
  - apply (fold_minimum_le ts t0 _ j H0 Hts Hj Nl). exact Hin.
  - apply (fold_maximum_ge ts t0 _ j H0 Hts Hj Nu). exact Hin.
Qed.

Lemma b64_in_bin_iff (g : B64.Geometry) (cube : list Z) (r : list float) :
  B64.in_bin g cube r = true <->
  forall j, (j < B64.nr_dimensions g)%nat ->
    (B64.lower_at g j (nth j cube 0%Z) <=? B64.lens r j) = true /\
    (B64.lens r j <=? B64.upper_at g j (nth j cube 0%Z)) = true.
Proof.
  unfold B64.in_bin. rewrite forallb_seq_iff.
  split; intros H j Hj; specialize (H j Hj).
  - now apply andb_true_iff in H.
  - now apply andb_true_iff.
Qed.

(** C7, as amended, on the binary64 code.  With [n_cubes=1], on a
    rectangular table with a row and a lens column, [define_bins] returns
    the all-zeros coordinate alone; and when the stored bounds enclose the
    table's lens coordinates and the bin of that coordinate, as computed,
    reaches the stored bounds on every dimension, [find_entries] on it
    returns the whole table. *)
Theorem b64_single_cube_whole_table (self : B64.Cover) (data : B64.ndarray)
  (g : B64.Geometry) :
  B64.well_shaped data -> B64.rows data <> [] ->
  (2 <= B64.ncols data)%nat ->
  B64.limits_match self data ->
  B64.n_cubes self = PyInt 1 ->
  B64.stored self data = Some g ->
  B64.encloses g data = true ->
  B64.reaches g (repeat 0%Z (B64.ncols data - 1)) = true ->
  exists self' ws,
    B64.define_bins self data
    = (self', ws, Ok [repeat 0%Z (B64.ncols data - 1)]) /\
    B64.find_entries self' data (repeat 0%Z (B64.ncols data - 1)) = Ok data.
Proof.
  intros Hd Hne Hcols Hl Hn Hst Henc Hreach.
  assert (Hc : B64.cubes_match self data).
  { unfold B64.cubes_match. now rewrite Hn. }
  destruct (b64_total_stored self data g Hd Hne Hl Hc Hst)
    as (self' & ws & H & Hg & Hs & _).
  rewrite Hn in H. cbn [cubes_of] in H. rewrite product_single in H.
  exists self', ws. split; [exact H|].
  set (k := (B64.ncols data - 1)%nat) in *.
  assert (Hk : (1 <= k)%nat) by (unfold k; lia).
  rewrite (b64_find_entries_filter self' g data (repeat 0%Z k) k Hg Hs Hk
             eq_refl) by apply repeat_length.
  destruct data as [nc rs]. cbn [B64.ncols B64.rows] in *. do 2 f_equal.
  apply filter_all_true. intros r Hr.
  apply b64_in_bin_iff. rewrite (B64.shaped_nr _ _ Hs). intros j Hj.
  unfold B64.encloses in Henc. cbn [B64.rows] in Henc.
  rewrite forallb_forall in Henc. specialize (Henc r Hr).
  rewrite (B64.shaped_nr _ _ Hs) in Henc.
  pose proof (proj1 (forallb_seq_iff _ k) Henc j Hj) as E.
  apply andb_true_iff in E. destruct E as [E1 E2].
  unfold B64.reaches in Hreach. rewrite (B64.shaped_nr _ _ Hs) in Hreach.
  pose proof (proj1 (forallb_seq_iff _ k) Hreach j Hj) as R.
  apply andb_true_iff in R. destruct R as [R1 R2].
  split.
  - eapply leb_trans; [exact R1 | exact E1].
  - eapply leb_trans; [exact E2 | exact R2].
Qed.

Lemma b64_single_cube_whole_table_witness :
  exists self' ws,
    B64.define_bins (B64.cover 1 0.5) B64.table3
    = (self', ws, Ok [repeat 0%Z (3 - 1)]) /\
    B64.find_entries self' B64.table3 (repeat 0%Z (3 - 1)) = Ok B64.table3.
Proof.
  apply (b64_single_cube_whole_table (B64.cover 1 0.5) B64.table3
           (B64.geometry3 1 0.5)).
  - repeat constructor.
  - discriminate.
  - simpl. lia.
  - exact I.
  - reflexivity.
  - vm_compute. reflexivity.
  - vm_compute. reflexivity.
  - vm_compute. reflexivity.
Defined.

(** C7, as stated, fails on the binary64 code: under explicit limits
    narrower than the data ([limits=[[1, 3]]], lens values 0, 2, 4: the
    middle row alone); by rounding ([limits=None], [perc_overlap=0], lens
    values 0.2 and 0.9: the bin ends at 0.2 + (0.9 - 0.2) =
    0.8999999999999999 and the second row is left out); on a table without
    a lens column, where [find_entries] raises [IndexError]; and under limits
    with more pairs than the table has lens columns ([limits=[[0, 1], [5,
    6]]], lens values 0 and 1: NumPy broadcasts the one lens column against
    both pairs and no row passes). *)
Lemma b64_single_cube_counterexample :
  B64.all_bins (B64.cover_limits 1 0.5 [(1, 3)]) B64.table_0_2_4
  = [Ok [[1; 2]]] /\
  B64.all_bins (B64.cover 1 0) B64.table_02_09
  = [Ok [[0; 0x1.999999999999ap-3]]] /\
  B64.all_bins (B64.cover 1 0.5) B64.table_ids = [Raise IndexError] /\
  B64.all_bins (B64.cover_limits 1 0.5 [(0, 1); (5, 6)]) B64.table_0_1
  = [Ok []].
Proof. repeat split; vm_compute; reflexivity. Qed.

Lemma b64_cubes_of_length (self : B64.Cover) (data : B64.ndarray) :
  B64.cubes_match self data ->
  length (cubes_of (B64.n_cubes self) (B64.ncols data - 1))
  = (B64.ncols data - 1)%nat.
Proof.
  unfold B64.cubes_match, cubes_of. destruct (B64.n_cubes self) as [n|l].
  - intros _. apply repeat_length.
  - auto.
Qed.

(** On a dimension whose bins chain from the stored lower bound to the
    stored upper bound, every value between the two bounds is in a bin. *)
Lemma b64_chained_cell (g : B64.Geometry) (j : nat) (n : Z) (x : float) :
  B64.chained_at g j n = true ->
  (nth j (B64.d g) zero <=? x) = true ->
  (x <=? nth j (B64.end_ g) zero) = true ->
  exists i, (0 <= i < n)%Z /\
    (B64.lower_at g j i <=? x) = true /\ (x <=? B64.upper_at g j i) = true.
Proof.
  unfold B64.chained_at. intros H Hlo Hhi.
  apply andb_true_iff in H. destruct H as [H Hend].
  apply andb_true_iff in H. destruct H as [H Hchain].
  apply andb_true_iff in H. destruct H as [Hn Hstart].
  apply Z.leb_le in Hn. rewrite forallb_forall in Hchain.
  destruct (chain_cover (fun i => B64.lower_at g j (Z.of_nat i))
              (fun i => B64.upper_at g j (Z.of_nat i)) x (Z.to_nat (n - 1)))
    as (i & Hi & H1 & H2).
  - change (Z.of_nat 0) with 0%Z. eapply leb_trans; eauto.
  - intros i Hi. rewrite Nat2Z.inj_succ, <- Z.add_1_r.
    apply Hchain. apply in_range. lia.
  - rewrite Z2Nat.id by lia. eapply leb_trans; eauto.
  - exists (Z.of_nat i). split; [lia|]. auto.
Qed.

(** C3, as amended, on the binary64 code.  With [limits=None], on a
    rectangular table with a lens column, when on every dimension there is
    at least one cube and the bins as computed chain from the column
    minimum to the column maximum without a gap, [define_bins] succeeds and
    every row of the table is in the [find_entries] result of one of the
    returned coordinates. *)
Theorem b64_coverage (self : B64.Cover) (data : B64.ndarray)
  (g : B64.Geometry) (r : list float) :
  B64.well_shaped data ->
  (2 <= B64.ncols data)%nat ->
  B64.limits self = None ->
  B64.cubes_match self data ->
  B64.stored self data = Some g ->
  B64.chained g (cubes_of (B64.n_cubes self) (B64.ncols data - 1)) = true ->
  In r (B64.rows data) ->
  exists self' ws coords cube out,
    B64.define_bins self data = (self', ws, Ok coords) /\
    In cube coords /\
    B64.find_entries self' data cube = Ok out /\
    In r (B64.rows out).
Proof.
  intros Hd Hcols Hnone Hc Hst Hch Hr.
  assert (Hl : B64.limits_match self data).
  { unfold B64.limits_match. now rewrite Hnone. }
  assert (Hne : B64.rows data <> [])
    by (intros E; rewrite E in Hr; destruct Hr).
  destruct (b64_total_stored self data g Hd Hne Hl Hc Hst)
    as (self' & ws & H & Hg & Hs & Hb).
  destruct (Hb Hnone) as [Hmin Hmax]. clear Hb.
  pose proof (b64_cubes_of_length self data Hc) as Lcs.
  set (k := (B64.ncols data - 1)%nat) in *.
  set (cs := cubes_of (B64.n_cubes self) k) in *.
  unfold B64.chained in Hch. rewrite (B64.shaped_nr _ _ Hs) in Hch.
  pose proof (proj1 (forallb_seq_iff _ k) Hch) as Hchain. cbv beta in Hchain.
  destruct (finite_choice 0%Z
    (fun j i =>
       (0 <= i < nth j cs 0%Z)%Z /\
       (B64.lower_at g j i <=? B64.lens r j) = true /\
       (B64.lens r j <=? B64.upper_at g j i) = true) k)
    as (cube & Lcube & Hcube).
  { intros j Hj. specialize (Hchain j Hj).
    assert (N : is_nan (nth j (B64.d g) zero) = false
                /\ is_nan (nth j (B64.end_ g) zero) = false).
    { unfold B64.chained_at in Hchain.
      apply andb_true_iff in Hchain. destruct Hchain as [Hx Hend].
      apply andb_true_iff in Hx. destruct Hx as [Hx _].
      apply andb_true_iff in Hx. destruct Hx as [_ Hstart].
      split.
      - exact (proj2 (leb_not_nan _ _ Hstart)).
      - exact (proj1 (leb_not_nan _ _ Hend)). }
    destruct N as [Nd Ne].
    destruct (b64_bounds_none data _ _ r j Hd Hmin Hmax Hr Hj Nd Ne)
      as [B1 B2].
    apply b64_chained_cell; assumption. }
  exists self', ws, (product (map range cs)), cube.
  exists (B64.mk_ndarray (B64.ncols data)
            (filter (B64.in_bin g cube) (B64.rows data))).
  split; [exact H|]. split; [|split].
  - apply in_coordinates.
    apply (Forall2_of_nth _ 0%Z 0%Z); [congruence|].
    intros j Hj. apply Hcube. lia.
  - apply b64_find_entries_filter with (k := k); auto. unfold k. lia.
  - cbn [B64.rows]. apply filter_In. split; [exact Hr|].
    apply b64_in_bin_iff. rewrite (B64.shaped_nr _ _ Hs). intros j Hj.
    destruct (Hcube j Hj) as (_ & H1 & H2). auto.
Qed.

Lemma b64_coverage_witness :
  exists self' ws coords cube out,
    B64.define_bins (B64.cover 2 0.5) B64.table3 = (self', ws, Ok coords) /\
    In cube coords /\
    B64.find_entries self' B64.table3 cube = Ok out /\
    In [1; 1; 2] (B64.rows out).
Proof.
  apply (b64_coverage (B64.cover 2 0.5) B64.table3 (B64.geometry3 2 0.5)).
  - repeat constructor.
  - simpl. lia.
  - reflexivity.
  - exact I.
  - vm_compute. reflexivity.
  - vm_compute. reflexivity.
  - simpl. auto.
Defined.

(** C3, as stated, fails on the binary64 code.  With [limits=None],
    [perc_overlap=0], [n_cubes=6] and lens values 0 and 1 the last bin ends
    at 0.8333333333333333 + 0.16666666666666666 = 0.9999999999999999, below
    the column maximum 1: the row of lens value 1 is in no bin.  With
    [n_cubes=0] no coordinate is returned at all, on a table without a
    lens column [find_entries] raises [IndexError], and with a list
    [n_cubes] longer than the table has lens columns [define_bins] raises
    [AssertionError]. *)
Lemma b64_coverage_counterexample :
  B64.all_bins (B64.cover 6 0) B64.table_0_1
  = [Ok [[0; 0]]; Ok []; Ok []; Ok []; Ok []; Ok []] /\
  B64.all_bins (B64.cover 0 0.5) B64.table_0_1 = [] /\
  B64.all_bins (B64.cover 2 0.5) B64.table_ids = [Raise IndexError] /\
  B64.all_bins (B64.mk_Cover (PyList [2; 3]%Z) 0.5 None None) B64.table_0_1
  = [Raise (AssertionError_dims 2 1)].
Proof. repeat split; vm_compute; reflexivity. Qed.

(** ** Growing overlap, in binary64 *)

Lemma b64_common_mono (rs : list (list float))
  (m1 m2 m1' m2' : list float -> bool) :
  (forall r, m1 r = true -> m2 r = true) ->
  (forall r, m1' r = true -> m2' r = true) ->
  (length (B64.common (filter m1 rs) (filter m1' rs))
   <= length (B64.common (filter m2 rs) (filter m2' rs)))%nat.
Proof.
  intros H H'. unfold B64.common. rewrite !filter_filter.
  apply length_filter_mono. intros r _ Hr.
  apply andb_true_iff in Hr. destruct Hr as [Hm Hex].
  apply andb_true_iff. split; [now apply H|].
  apply existsb_exists in Hex. destruct Hex as (s & Hs & Hrs).
  apply existsb_exists. exists s. split; [|exact Hrs].
  apply (incl_filter_mono m1' m2' rs); auto.
Qed.

Lemma b64_in_bin_nested (g1 g2 : B64.Geometry) (cube : list Z)
  (r : list float) :
  B64.nr_dimensions g1 = B64.nr_dimensions g2 ->
  B64.nested g1 g2 cube = true ->
  B64.in_bin g1 cube r = true -> B64.in_bin g2 cube r = true.
Proof.
  intros En Hn. rewrite !b64_in_bin_iff, <- En. intros H j Hj.
  destruct (H j Hj) as [H1 H2].
  unfold B64.nested in Hn.
  pose proof (proj1 (forallb_seq_iff _ _) Hn j Hj) as N.
  apply andb_true_iff in N. destruct N as [N1 N2]. split.
  - eapply leb_trans; eauto.
  - eapply leb_trans; eauto.
Qed.

(** C5, as amended, on the binary64 code.  Two covers that differ only in
    [perc_overlap] are run on the same rectangular table with a row and a
    lens column.  Both [define_bins] calls return the same coordinates, and
    for every two of them (adjacent ones included) whose bins as computed
    under the second cover enclose their bins as computed under the first,
    every [find_entries] call succeeds, the rows returned for the first
    coordinate under the first cover are among those returned for it under
    the second one (so there are at most as many), and the two coordinates
    have at most as many rows in common under the first cover as under the
    second. *)
Theorem b64_overlap_nested (self1 self2 : B64.Cover) (data : B64.ndarray)
  (g1 g2 : B64.Geometry) :
  B64.well_shaped data -> B64.rows data <> [] ->
  (2 <= B64.ncols data)%nat ->
  B64.limits_match self1 data -> B64.cubes_match self1 data ->
  B64.n_cubes self1 = B64.n_cubes self2 ->
  B64.limits self1 = B64.limits self2 ->
  B64.stored self1 data = Some g1 ->
  B64.stored self2 data = Some g2 ->
  exists self1' ws1 self2' ws2 coords,
    B64.define_bins self1 data = (self1', ws1, Ok coords) /\
    B64.define_bins self2 data = (self2', ws2, Ok coords) /\
    forall cube cube', In cube coords -> In cube' coords ->
      B64.nested g1 g2 cube = true -> B64.nested g1 g2 cube' = true ->
      exists out1 out2 out1' out2',
        B64.find_entries self1' data cube = Ok out1 /\
        B64.find_entries self2' data cube = Ok out2 /\
        B64.find_entries self1' data cube' = Ok out1' /\
        B64.find_entries self2' data cube' = Ok out2' /\
        incl (B64.rows out1) (B64.rows out2) /\
        (length (B64.rows out1) <= length (B64.rows out2))%nat /\
        (length (B64.common (B64.rows out1) (B64.rows out1'))
         <= length (B64.common (B64.rows out2) (B64.rows out2')))%nat.
Proof.
  intros Hd Hne Hcols Hl1 Hc1 En El Hst1 Hst2.
  assert (Hl2 : B64.limits_match self2 data).
  { unfold B64.limits_match in *. now rewrite <- El. }
  assert (Hc2 : B64.cubes_match self2 data).
  { unfold B64.cubes_match in *. now rewrite <- En. }
  destruct (b64_total_stored self1 data g1 Hd Hne Hl1 Hc1 Hst1)
    as (s1 & ws1 & H1 & Hg1 & Hs1 & _).
  destruct (b64_total_stored self2 data g2 Hd Hne Hl2 Hc2 Hst2)
    as (s2 & ws2 & H2 & Hg2 & Hs2 & _).
  rewrite <- En in H2.
  exists s1, ws1, s2, ws2; eexists. split; [exact H1|]. split; [exact H2|].
  pose proof (b64_cubes_of_length self1 data Hc1) as Lcs.
  intros cube cube' Hin Hin' Hn Hn'.
  apply in_coordinates in Hin, Hin'.
  assert (Lc : length cube = (B64.ncols data - 1)%nat).
  { rewrite (Forall2_length_eq _ _ _ Hin). exact Lcs. }
  assert (Lc' : length cube' = (B64.ncols data - 1)%nat).
  { rewrite (Forall2_length_eq _ _ _ Hin'). exact Lcs. }
  assert (Enr : B64.nr_dimensions g1 = B64.nr_dimensions g2).
  { now rewrite (B64.shaped_nr _ _ Hs1), (B64.shaped_nr _ _ Hs2). }
  exists (B64.mk_ndarray (B64.ncols data)
            (filter (B64.in_bin g1 cube) (B64.rows data))),
         (B64.mk_ndarray (B64.ncols data)
            (filter (B64.in_bin g2 cube) (B64.rows data))),
         (B64.mk_ndarray (B64.ncols data)
            (filter (B64.in_bin g1 cube') (B64.rows data))),
         (B64.mk_ndarray (B64.ncols data)
            (filter (B64.in_bin g2 cube') (B64.rows data))).
  repeat split.
  1-4: apply b64_find_entries_filter with (k := (B64.ncols data - 1)%nat);
    auto; lia.
  all: cbn [B64.rows].
  - apply incl_filter_mono. intros r _. now apply b64_in_bin_nested.
  - apply length_filter_mono. intros r _. now apply b64_in_bin_nested.
  - apply b64_common_mono; intros r; now apply b64_in_bin_nested.
Qed.

Lemma b64_overlap_nested_witness :
  exists self1' ws1 self2' ws2 coords,
    B64.define_bins (B64.cover 2 0.25) B64.table3 = (self1', ws1, Ok coords) /\
    B64.define_bins (B64.cover 2 0.5) B64.table3 = (self2', ws2, Ok coords) /\
    forall cube cube', In cube coords -> In cube' coords ->
      B64.nested (B64.geometry3 2 0.25) (B64.geometry3 2 0.5) cube = true ->
      B64.nested (B64.geometry3 2 0.25) (B64.geometry3 2 0.5) cube' = true ->
      exists out1 out2 out1' out2',
        B64.find_entries self1' B64.table3 cube = Ok out1 /\
        B64.find_entries self2' B64.table3 cube = Ok out2 /\
        B64.find_entries self1' B64.table3 cube' = Ok out1' /\
        B64.find_entries self2' B64.table3 cube' = Ok out2' /\
        incl (B64.rows out1) (B64.rows out2) /\
        (length (B64.rows out1) <= length (B64.rows out2))%nat /\
        (length (B64.common (B64.rows out1) (B64.rows out1'))
         <= length (B64.common (B64.rows out2) (B64.rows out2')))%nat.
Proof.
  apply (b64_overlap_nested (B64.cover 2 0.25) (B64.cover 2 0.5) B64.table3
           (B64.geometry3 2 0.25) (B64.geometry3 2 0.5)).
  - repeat constructor.
  - discriminate.
  - simpl. lia.
  - exact I.
  - exact I.
  - reflexivity.
  - reflexivity.
  - vm_compute. reflexivity.
  - vm_compute. reflexivity.
Defined.

(** C5, as stated, fails on the binary64 code.  With [n_cubes=7] and lens
    values 0, 1, 2, 3, 4 the bin of coordinate 2 holds the rows of lens
    values 1 and 2 under [perc_overlap=0.5], and the row of lens value 1
    alone under the next larger binary64 number, 0.5000000000000001, where
    the upper bound of the bin is computed as 1.9999999999999998. *)
Lemma b64_overlap_counterexample :
  (0.5 <? 0x1.0000000000001p-1) = true /\
  B64.all_bins (B64.cover 7 0.5) B64.table_0_to_4
  = [Ok [[0; 0]]; Ok [[1; 1]]; Ok [[1; 1]; [2; 2]]; Ok [[2; 2]];
     Ok [[2; 2]; [3; 3]]; Ok [[3; 3]]; Ok [[4; 4]]] /\
  nth 2 (B64.all_bins (B64.cover 7 0x1.0000000000001p-1) B64.table_0_to_4)
    (Ok [])
  = Ok [[1; 1]].
Proof. repeat split; vm_compute; reflexivity. Qed.
End Binary64Claims.
